(** * Verification of [parse_docstring]
    (src/mcp/server/fastmcp/utilities/docstring_parser.py)

    The parser is a single pass over the lines of a docstring.  It is
    embedded here as a pure step function over an explicit record of the
    loop's local variables, folded over the lines.

    Text is modelled by Rocq strings, whose characters are the code points
    0..255; the character classes below are those Python uses on that range
    ([str.isspace], [str.splitlines], [str.lower], and the regex classes
    [\s], [\w] and [.]). *)

From Stdlib Require Import String Ascii List Bool Arith Lia.
Import ListNotations.
Open Scope string_scope.

(** ** Python's string primitives *)

Module Py.
Local Open Scope nat_scope.

Definition code (c : ascii) : nat := nat_of_ascii c.

Definition between (lo hi n : nat) : bool := (lo <=? n) && (n <=? hi).

(** [str.isspace] on one character, which is also the regex class [\s]. *)
Definition isspace (c : ascii) : bool :=
  let n := code c in
  between 9 13 n || between 28 32 n || (n =? 133) || (n =? 160).

(** The line boundaries of [str.splitlines]. *)
Definition islinebreak (c : ascii) : bool :=
  let n := code c in
  between 10 13 n || between 28 30 n || (n =? 133).

(** The regex class [\w]. *)
Definition isword (c : ascii) : bool :=
  let n := code c in
  between 48 57 n || between 65 90 n || (n =? 95) || between 97 122 n
  || (n =? 170) || between 178 179 n || (n =? 181) || between 185 186 n
  || between 188 190 n || between 192 214 n || between 216 246 n
  || between 248 255 n.

Definition lower_char (c : ascii) : ascii :=
  let n := code c in
  if between 65 90 n || between 192 214 n || between 216 222 n
  then ascii_of_nat (n + 32) else c.

(** [s.lower()] *)
Fixpoint lower (s : string) : string :=
  match s with
  | "" => ""
  | String c s' => String (lower_char c) (lower s')
  end.

Fixpoint lstrip (s : string) : string :=
  match s with
  | "" => ""
  | String c s' => if isspace c then lstrip s' else s
  end.

Fixpoint rstrip (s : string) : string :=
  match s with
  | "" => ""
  | String c s' =>
      match rstrip s' with
      | "" => if isspace c then "" else String c ""
      | r => String c r
      end
  end.

(** [s.strip()] *)
Definition strip (s : string) : string := rstrip (lstrip s).

(** [s.startswith(p)] *)
Definition startswith (s p : string) : bool := String.prefix p s.

(** [s.startswith((p1, ..., pn))] *)
Definition startswith_any (s : string) (ps : list string) : bool :=
  existsb (startswith s) ps.

(** [s in (t1, ..., tn)] *)
Definition in_tuple (s : string) (ts : list string) : bool :=
  existsb (String.eqb s) ts.

(** [sep.join(l)] *)
Definition join (sep : string) (l : list string) : string :=
  String.concat sep l.

(** [s.splitlines()]: [cur] is the line being read, [after_cr] tells that
    the previous character was a carriage return, whose following line
    feed belongs to the same boundary. *)
Fixpoint splitlines_from (s cur : string) (after_cr : bool) : list string :=
  match s with
  | "" => match cur with "" => [] | _ => [cur] end
  | String c s' =>
      if after_cr && (code c =? 10) then splitlines_from s' cur false
      else if islinebreak c then cur :: splitlines_from s' "" (code c =? 13)
      else splitlines_from s' (cur ++ String c "") false
  end.

Definition splitlines (s : string) : list string :=
  splitlines_from s "" false.

(** Truth value of a string, of an optional string and of a list. *)
Definition truthy (s : string) : bool :=
  match s with "" => false | _ => true end.

Definition truthy_opt (o : option string) : bool :=
  match o with Some s => truthy s | None => false end.

Definition truthy_list {A} (l : list A) : bool :=
  match l with [] => false | _ => true end.

End Py.

(** ** The key pattern

    The regular expression of line 34, applied with [match]: leading
    whitespace, a key of word characters and dots, whitespace, an optional
    annotation in parentheses, a colon, whitespace, and the rest of the
    line.  The greedy runs of whitespace and of key characters cannot give
    back a character (what follows them in the pattern accepts no character
    of the run), so only the annotation needs backtracking: it ends at the
    last closing parenthesis of the line that a colon follows. *)

Module KeyPattern.
Import Py.
Local Open Scope nat_scope.

Definition iskeychar (c : ascii) : bool := isword c || (code c =? 46).

(** Group 1: the longest run of key characters, and what follows it. *)
Fixpoint key_run (s : string) : string * string :=
  match s with
  | "" => ("", "")
  | String c s' =>
      if iskeychar c
      then let (k, r) := key_run s' in (String c k, r)
      else ("", s)
  end.

(** The annotation, read after its opening parenthesis: the text after
    the colon, for the last closing parenthesis that a colon follows;
    the dot of the pattern matches no line feed. *)
Fixpoint annotation_end (s : string) : option string :=
  match s with
  | "" => None
  | String c s' =>
      if code c =? 10 then None
      else match annotation_end s' with
           | Some r => Some r
           | None =>
               if code c =? 41 then
                 match s' with
                 | String c' r => if code c' =? 58 then Some r else None
                 | "" => None
                 end
               else None
           end
  end.

(** Group 2: up to the first line feed. *)
Fixpoint dot_star (s : string) : string :=
  match s with
  | "" => ""
  | String c s' => if code c =? 10 then "" else String c (dot_star s')
  end.

(** [key_pattern.match(line)], as [(group(1), group(2))]. *)
Definition key_pattern (line : string) : option (string * string) :=
  let (key, r) := key_run (lstrip line) in
  match key with
  | "" => None
  | _ =>
      match lstrip r with
      | String c t =>
          if code c =? 58 then Some (key, dot_star (lstrip t))
          else if code c =? 40 then
            match annotation_end t with
            | Some u => Some (key, dot_star (lstrip u))
            | None => None
            end
          else None
      | "" => None
      end
  end.

End KeyPattern.

(** ** The dictionaries [args] and [raises]

    A Python dict keeps its keys in insertion order; assigning to a key
    that is present replaces its value in place. *)

Module Dict.

Definition dict := list (string * string).

Definition empty : dict := [].

(** [d[k] = v] *)
Fixpoint set (d : dict) (k v : string) : dict :=
  match d with
  | [] => [(k, v)]
  | (k', v') :: d' =>
      if String.eqb k' k then (k', v) :: d' else (k', v') :: set d' k v
  end.

(** [d.get(k)] *)
Fixpoint get (d : dict) (k : string) : option string :=
  match d with
  | [] => None
  | (k', v') :: d' => if String.eqb k' k then Some v' else get d' k
  end.

Definition keys (d : dict) : list string := map fst d.

End Dict.

(** ** The parser *)

Import Py KeyPattern.

Inductive section := Args | Returns | Raises | Other.

Definition section_eqb (a b : section) : bool :=
  match a, b with
  | Args, Args | Returns, Returns | Raises, Raises | Other, Other => true
  | _, _ => false
  end.

(** [current_section == name], where [current_section] may be [None]. *)
Definition is_section (cur : option section) (name : section) : bool :=
  match cur with Some s => section_eqb s name | None => false end.

(** The local variables of [parse_docstring] that the loop updates. *)
Record state := mkState {
  args : Dict.dict;
  returns : string;
  raises : Dict.dict;
  current_section : option section;
  current_key : option string;
  current_desc_lines : list string
}.

(** The returned dictionary. *)
Record ParsedDoc := mkDoc {
  doc_summary : string;
  doc_args : Dict.dict;
  doc_returns : string;
  doc_raises : Dict.dict
}.

Definition empty_doc : ParsedDoc := mkDoc "" Dict.empty "" Dict.empty.

Inductive exn := IndexError.

Inductive outcome := Returned (d : ParsedDoc) | Raised (e : exn).

Definition set_args (st : state) (d : Dict.dict) : state :=
  mkState d (returns st) (raises st)
          (current_section st) (current_key st) (current_desc_lines st).

Definition set_returns (st : state) (r : string) : state :=
  mkState (args st) r (raises st)
          (current_section st) (current_key st) (current_desc_lines st).

Definition set_raises (st : state) (d : Dict.dict) : state :=
  mkState (args st) (returns st) d
          (current_section st) (current_key st) (current_desc_lines st).

Definition set_pending (st : state) (k : option string) (ds : list string)
  : state :=
  mkState (args st) (returns st) (raises st) (current_section st) k ds.

Definition set_section (st : state) (s : option section) : state :=
  mkState (args st) (returns st) (raises st)
          s (current_key st) (current_desc_lines st).

(** [" ".join(current_desc_lines).strip()] *)
Definition description (ds : list string) : string := strip (join " " ds).

(** The key under which a pending entry is stored; the code only reads
    [current_key] as a key after testing that it is truthy. *)
Definition key_of (k : option string) : string :=
  match k with Some s => s | None => "" end.

(** Section detection (lines 43-60): the new section type, [None] when
    the line is no header; [is_new_section_header] is set exactly when the
    type is. *)
Definition new_section_type (section_line : string) : option section :=
  if in_tuple section_line ["args:"; "arguments:"; "parameters:"]
  then Some Args
  else if in_tuple section_line ["returns:"; "yields:"]
  then Some Returns
  else if startswith_any section_line
            ["raises "; "raises:"; "errors:"; "exceptions:"]
  then Some Raises
  else if startswith_any section_line
            ["attributes:"; "see also:"; "example:"; "examples:"; "notes:"]
  then Some Other
  else None.

Definition is_some {A} (o : option A) : bool :=
  match o with Some _ => true | None => false end.

(** The test of lines 64-70. *)
Definition finalize_previous (st : state) (line : string)
                             (is_new_section_header : bool) : bool :=
  if is_new_section_header then true
  else if (is_section (current_section st) Args
           || is_section (current_section st) Raises)
          && truthy_opt (current_key st) && negb (startswith line " ")
  then true
  else if is_section (current_section st) Returns
          && truthy_list (current_desc_lines st)
          && negb (startswith line " ")
  then true
  else false.

(** Lines 74-84: store the item in progress, then reset the pending entry
    and set the section to the new section type. *)
Definition finalize (st : state) (new_type : option section) : state :=
  let d := description (current_desc_lines st) in
  let st1 :=
    if is_section (current_section st) Args && truthy_opt (current_key st)
    then set_args st (Dict.set (args st) (key_of (current_key st)) d)
    else if is_section (current_section st) Raises
            && truthy_opt (current_key st)
    then set_raises st (Dict.set (raises st) (key_of (current_key st)) d)
    else if is_section (current_section st) Returns
    then set_returns st d
    else st in
  set_section (set_pending st1 None []) new_type.

(** Lines 98-103 and 119-124: store the pending key in the mapping of the
    current section. *)
Definition store_pending (st : state) : state :=
  let d := description (current_desc_lines st) in
  if is_section (current_section st) Args
  then set_args st (Dict.set (args st) (key_of (current_key st)) d)
  else if is_section (current_section st) Raises
  then set_raises st (Dict.set (raises st) (key_of (current_key st)) d)
  else st.

(** Lines 94-116. *)
Definition process_content (st : state) (line stripped_line : string)
  : state :=
  if is_section (current_section st) Args
     || is_section (current_section st) Raises
  then
    match key_pattern line with
    | Some (g1, g2) =>
        let st1 := if truthy_opt (current_key st)
                   then store_pending st else st in
        set_pending st1 (Some g1) [strip g2]
    | None =>
        if truthy_opt (current_key st) && startswith line " "
        then set_pending st (current_key st)
                         (current_desc_lines st ++ [stripped_line])
        else st
    end
  else if is_section (current_section st) Returns
  then
    if negb (truthy_list (current_desc_lines st)) || startswith line " "
    then set_pending st (current_key st)
                     (current_desc_lines st ++ [stripped_line])
    else st
  else st.

(** One iteration of the loop (lines 36-116). *)
Definition process_line (st : state) (line : string) : state :=
  let stripped_line := strip line in
  if negb (truthy stripped_line) then st
  else
    let section_line := lower stripped_line in
    let new_type := new_section_type section_line in
    let is_new_section_header := is_some new_type in
    if finalize_previous st line is_new_section_header then
      let st' := finalize st new_type in
      if is_new_section_header then st'
      else process_content st' line stripped_line
    else process_content st line stripped_line.

Definition initial : state := mkState Dict.empty "" Dict.empty None None [].

(** The loop over [lines[1:]]. *)
Definition scan (st : state) (lines : list string) : state :=
  fold_left process_line lines st.

(** Lines 119-127. *)
Definition final_capture (st : state) : state :=
  if truthy_opt (current_key st) then store_pending st
  else if is_section (current_section st) Returns
          && negb (truthy (returns st))
  then set_returns st (description (current_desc_lines st))
  else st.

(** [lines[i]] *)
Definition index (lines : list string) (i : nat) : exn + string :=
  match nth_error lines i with
  | Some l => inr l
  | None => inl IndexError
  end.

(** Everything after [lines] is known to be non-empty (lines 24-129). *)
Definition parse_lines (lines : list string) : outcome :=
  match index lines 0 with
  | inl e => Raised e
  | inr first =>
      let st := final_capture (scan initial (tl lines)) in
      Returned (mkDoc (strip first) (args st) (returns st) (raises st))
  end.

Definition parse_docstring (docstring : option string) : outcome :=
  match docstring with
  | None => Returned empty_doc
  | Some text =>
      if negb (truthy text) then Returned empty_doc
      else
        let lines := splitlines (strip text) in
        if negb (truthy_list lines) then Returned empty_doc
        else parse_lines lines
  end.

(** A line feed, for building test inputs. *)
Definition nl : string := String (ascii_of_nat 10) "".
Definition tab : string := String (ascii_of_nat 9) "".

(** [unlines [l1; ...; ln]] is the text whose lines are [l1], ..., [ln]. *)
Definition unlines (ls : list string) : string := join nl ls.

(** ** Shapes of a line, as the loop tests them *)

(** [not stripped_line] *)
Definition is_blank (line : string) : bool := negb (truthy (strip line)).

(** The section a header line opens. *)
Definition header_of (line : string) : option section :=
  new_section_type (lower (strip line)).

Definition is_header (line : string) : bool := is_some (header_of line).

(** The indentation test of the code: [line.startswith(' ')]. *)
Definition indented (line : string) : bool := startswith line " ".

(** A line that extends the open entry of an Args or Raises section. *)
Definition is_continuation (line : string) : bool :=
  negb (is_blank line) && negb (is_header line) && indented line
  && negb (is_some (key_pattern line)).

(** The line matches the key pattern with key [k]. *)
Definition introduces (k line : string) : bool :=
  match key_pattern line with
  | Some (g1, _) => String.eqb g1 k
  | None => false
  end.

(** Every character of the text is whitespace. *)
Fixpoint all_space (s : string) : bool :=
  match s with
  | "" => true
  | String c s' => isspace c && all_space s'
  end.

(** The mapping that belongs to a section, in the state and in the result. *)
Definition mapping (sec : section) (st : state) : Dict.dict :=
  match sec with
  | Args => args st
  | Raises => raises st
  | _ => Dict.empty
  end.

Definition doc_mapping (sec : section) (d : ParsedDoc) : Dict.dict :=
  match sec with
  | Args => doc_args d
  | Raises => doc_raises d
  | _ => Dict.empty
  end.

(** The description lines that a run of blank and continuation lines adds. *)
Definition continuations (ls : list string) : list string :=
  map strip (filter (fun l => negb (is_blank l)) ls).

(** The first line that is not blank, if any, is no continuation line. *)
Fixpoint entry_ends (post : list string) : bool :=
  match post with
  | [] => true
  | l :: post' => if is_blank l then entry_ends post'
                  else negb (is_continuation l)
  end.

(** An iteration writes a mapping only under the pending key. *)
Definition writes (sec : section) (st st' : state) : Prop :=
  mapping sec st' = mapping sec st
  \/ exists k, current_key st = Some k /\ truthy k = true
               /\ current_section st = Some sec
               /\ mapping sec st' =
                  Dict.set (mapping sec st) k
                           (description (current_desc_lines st)).

(** An item is in progress: a pending key in Args or Raises, or description
    lines gathered in Returns. *)
Definition item_open (st : state) : bool :=
  ((is_section (current_section st) Args
    || is_section (current_section st) Raises)
   && truthy_opt (current_key st))
  || (is_section (current_section st) Returns
      && truthy_list (current_desc_lines st)).

(** The header strings that are compared as a whole, and those compared
    as prefixes. *)
Definition exact_headers : list string :=
  ["args:"; "arguments:"; "parameters:"; "returns:"; "yields:"].

Definition raises_prefixes : list string :=
  ["raises "; "raises:"; "errors:"; "exceptions:"].

Definition other_prefixes : list string :=
  ["attributes:"; "see also:"; "example:"; "examples:"; "notes:"].

(** ** Shapes of texts and entries, for the properties of whole inputs *)

(** No character of the text is a line boundary. *)
Fixpoint no_linebreak (s : string) : bool :=
  match s with
  | "" => true
  | String c s' => negb (islinebreak c) && no_linebreak s'
  end.

(** Every character is a key character of the pattern. *)
Fixpoint all_keychars (k : string) : bool :=
  match k with
  | "" => true
  | String c k' => iskeychar c && all_keychars k'
  end.

(** What group 1 of the key pattern can be. *)
Definition valid_key (k : string) : bool := truthy k && all_keychars k.

(** A section whose lines are not captured: none yet, or Other. *)
Definition inert_section (s : option section) : bool :=
  match s with
  | None | Some Other => true
  | Some _ => false
  end.

(** A line inside a Returns section that is blank or indented content. *)
Definition returns_line (line : string) : bool :=
  is_blank line || (negb (is_header line) && indented line).

(** An entry as a docstring writes it: key, optional annotation, text. *)
Definition entry : Type := string * option string * string.

Definition annotation (ty : option string) : string :=
  match ty with
  | None => ""
  | Some t => " (" ++ t ++ ")"
  end.

Definition entry_line (e : entry) : string :=
  let '(k, ty, v) := e in "    " ++ k ++ annotation ty ++ ": " ++ v.

(** The entry can be read back: a key of key characters, a one-line
    trimmed text, a line that is no section header and, under an
    annotation, a text in which no closing parenthesis is followed by a
    colon. *)
Definition entry_ok (e : entry) : bool :=
  let '(k, ty, v) := e in
  valid_key k && no_linebreak v && String.eqb (strip v) v
  && negb (is_header (entry_line e))
  && match ty with
     | None => true
     | Some t => no_linebreak t && negb (is_some (annotation_end v))
     end.

(** The dictionary built by assigning the entries in order. *)
Definition dict_of (es : list entry) : Dict.dict :=
  fold_left (fun d (e : entry) => let '(k, _, v) := e in Dict.set d k v)
            es Dict.empty.

(** [returns] is written only inside a Returns section, with the
    description gathered there. *)
Definition writes_returns (st st' : state) : Prop :=
  returns st' = returns st
  \/ (current_section st = Some Returns
      /\ returns st' = description (current_desc_lines st)).

(** The keys are valid: those stored, and the pending one. *)
Definition keys_valid (sec : section) (st : state) : Prop :=
  (forall k, In k (Dict.keys (mapping sec st)) -> valid_key k = true)
  /\ (forall k, current_key st = Some k -> valid_key k = true).

(** The stored descriptions are trimmed. *)
Definition values_trimmed (sec : section) (st : state) : Prop :=
  forall k v, In (k, v) (mapping sec st) -> strip v = v.

(** The lines after the body of a Returns section end it: the input ends,
    or a header follows, or an unindented line follows gathered text. *)
Definition returns_ends (body post : list string) : bool :=
  match post with
  | [] => true
  | l :: _ =>
      is_header l
      || (negb (is_blank l) && negb (indented l)
          && truthy_list (continuations body))
  end.

(** No line is a header of the section. *)
Definition no_header_of (sec : section) (ls : list string) : bool :=
  forallb (fun l => negb (is_section (header_of l) sec)) ls.

(** The key and the text of an entry. *)
Definition entry_pair (e : entry) : string * string :=
  let '(k, _, v) := e in (k, v).

(** The lines under a key-line that belong to its entry: the longest run
    of blank and continuation lines; and the lines after that run. *)
Fixpoint entry_body (rest : list string) : list string :=
  match rest with
  | [] => []
  | l :: rest' =>
      if is_blank l || is_continuation l then l :: entry_body rest' else []
  end.

Fixpoint after_entry (rest : list string) : list string :=
  match rest with
  | [] => []
  | l :: rest' =>
      if is_blank l || is_continuation l then after_entry rest' else rest
  end.

Arguments strip : simpl never.
Arguments lower : simpl never.
Arguments startswith : simpl never.
Arguments new_section_type : simpl never.
Arguments key_pattern : simpl never.
Arguments description : simpl never.

(** ** Proof tactics *)

(** Split a state into the variables of the loop. *)
Ltac open_state st :=
  let a := fresh "a" in let r := fresh "r" in let x := fresh "x" in
  let cs := fresh "cs" in let ck := fresh "ck" in let ds := fresh "ds" in
  destruct st as [a r x cs ck ds]; simpl in *; subst.

(** Close a goal whose premise equates two different constructors. *)
Ltac refute := let X := fresh in intro X; discriminate X.

(** ** Strings *)

Section StringFacts.

Lemma lstrip_all_space (s : string) : all_space s = true -> lstrip s = "".
Proof.
  induction s as [|c s IH]; simpl; [reflexivity|].
  destruct (isspace c); simpl; [exact IH | discriminate].
Qed.

Lemma lstrip_not_all_space (s : string) :
  all_space s = false ->
  exists c r, lstrip s = String c r /\ isspace c = false.
Proof.
  induction s as [|c s IH]; simpl; [discriminate|].
  destruct (isspace c) eqn:E; simpl; [exact IH|].
  intros _. exists c, s. split; [reflexivity | exact E].
Qed.

Lemma rstrip_keeps_head (c : ascii) (r : string) :
  isspace c = false -> exists r', rstrip (String c r) = String c r'.
Proof.
  intros E. simpl. destruct (rstrip r).
  - rewrite E. eexists; reflexivity.
  - eexists; reflexivity.
Qed.

Lemma strip_all_space (s : string) : all_space s = true -> strip s = "".
Proof.
  intros H. unfold strip. rewrite (lstrip_all_space s H). reflexivity.
Qed.

Lemma strip_not_all_space (s : string) :
  all_space s = false -> exists c r, strip s = String c r.
Proof.
  intros H. destruct (lstrip_not_all_space s H) as (c & r & E & Hc).
  unfold strip. rewrite E.
  destruct (rstrip_keeps_head c r Hc) as [r' E']. eauto.
Qed.

Lemma splitlines_from_pending (s cur : string) :
  cur <> "" -> splitlines_from s cur false <> [].
Proof.
  revert cur. induction s as [|c s IH]; intros cur Hcur; simpl.
  - destruct cur; [congruence | discriminate].
  - destruct (islinebreak c); [discriminate|].
    apply IH. destruct cur; discriminate.
Qed.

Lemma splitlines_nonempty (c : ascii) (r : string) :
  splitlines (String c r) <> [].
Proof.
  unfold splitlines. simpl.
  destruct (islinebreak c); [discriminate|].
  apply splitlines_from_pending. discriminate.
Qed.

End StringFacts.

(** ** The loop *)

Section Loop.

Lemma scan_app (st : state) (l1 l2 : list string) :
  scan st (l1 ++ l2) = scan (scan st l1) l2.
Proof. apply fold_left_app. Qed.

Lemma scan_cons (st : state) (l : string) (ls : list string) :
  scan st (l :: ls) = scan (process_line st l) ls.
Proof. reflexivity. Qed.

Lemma process_blank (st : state) (line : string) :
  is_blank line = true -> process_line st line = st.
Proof.
  unfold is_blank, process_line. intros H. rewrite H. reflexivity.
Qed.

Lemma strip_empty_blank (line : string) :
  strip line = "" -> is_blank line = true.
Proof. unfold is_blank. intros ->. reflexivity. Qed.

End Loop.

(** ** One iteration, by the shape of the line *)

Section Step.

Lemma header_not_blank (line : string) :
  is_header line = true -> is_blank line = false.
Proof.
  unfold is_header, header_of, is_blank.
  destruct (strip line); [discriminate | reflexivity].
Qed.

Lemma process_header (st : state) (line : string) :
  is_header line = true ->
  process_line st line = finalize st (header_of line).
Proof.
  intros H. pose proof (header_not_blank line H) as B.
  unfold process_line. unfold is_blank in B. rewrite B.
  unfold is_header, header_of in H. unfold header_of.
  destruct (new_section_type (lower (strip line))); [|discriminate].
  reflexivity.
Qed.

Lemma process_nonheader (st : state) (line : string) :
  is_blank line = false -> is_header line = false ->
  process_line st line =
  process_content
    (if finalize_previous st line false then finalize st None else st)
    line (strip line).
Proof.
  intros B H. unfold process_line. unfold is_blank in B. rewrite B.
  unfold is_header, header_of in H.
  destruct (new_section_type (lower (strip line))); [discriminate|].
  cbv zeta. cbn [is_some].
  destruct (finalize_previous st line false); reflexivity.
Qed.

Variable sec : section.
Hypothesis sec_keyed : sec = Args \/ sec = Raises.

Lemma keyed_section (st : state) :
  current_section st = Some sec ->
  is_section (current_section st) Args
  || is_section (current_section st) Raises = true.
Proof. intros ->. destruct sec_keyed as [-> | ->]; reflexivity. Qed.

Lemma not_returns_section (st : state) :
  current_section st = Some sec ->
  is_section (current_section st) Returns = false.
Proof. intros ->. destruct sec_keyed as [-> | ->]; reflexivity. Qed.

(** Storing the pending key writes the mapping of the current section. *)
Lemma store_pending_spec (st : state) :
  current_section st = Some sec ->
  mapping sec (store_pending st) =
    Dict.set (mapping sec st) (key_of (current_key st))
             (description (current_desc_lines st))
  /\ current_section (store_pending st) = Some sec
  /\ returns (store_pending st) = returns st.
Proof.
  intros E. open_state st.
  unfold store_pending; simpl.
  destruct sec_keyed as [-> | ->]; simpl; auto.
Qed.

(** A key-line that starts with a space, or meets no pending key. *)
Lemma key_line_step (st : state) (line g1 g2 : string) :
  current_section st = Some sec ->
  is_header line = false ->
  key_pattern line = Some (g1, g2) ->
  is_blank line = false ->
  indented line = true \/ truthy_opt (current_key st) = false ->
  process_line st line =
    set_pending (if truthy_opt (current_key st)
                 then store_pending st else st)
                (Some g1) [strip g2].
Proof.
  intros E H K B I.
  rewrite (process_nonheader st line B H).
  assert (F : finalize_previous st line false = false).
  { unfold finalize_previous. rewrite (not_returns_section st E).
    unfold indented in I. destruct I as [I | I]; rewrite I; simpl.
    - rewrite andb_false_r. reflexivity.
    - rewrite andb_false_r. reflexivity. }
  rewrite F. unfold process_content.
  rewrite (keyed_section st E), K. reflexivity.
Qed.

(** A continuation line of an open entry. *)
Lemma continuation_step (st : state) (line : string) :
  current_section st = Some sec ->
  truthy_opt (current_key st) = true ->
  is_continuation line = true ->
  process_line st line =
    set_pending st (current_key st)
                (current_desc_lines st ++ [strip line]).
Proof.
  intros E T C. unfold is_continuation in C.
  apply andb_prop in C as [C K]. apply andb_prop in C as [C I].
  apply andb_prop in C as [B H].
  apply negb_true_iff in B, H, K.
  rewrite (process_nonheader st line B H).
  assert (F : finalize_previous st line false = false).
  { unfold finalize_previous. rewrite (not_returns_section st E).
    unfold indented in I. rewrite I, andb_false_r. reflexivity. }
  rewrite F. unfold process_content.
  rewrite (keyed_section st E).
  destruct (key_pattern line); [discriminate|].
  unfold indented in I. rewrite T, I. reflexivity.
Qed.

(** A line that is no header and starts with no space, met with an
    entry open: the entry is stored and the section is left. *)
Lemma deindent_step (st : state) (line : string) :
  current_section st = Some sec ->
  truthy_opt (current_key st) = true ->
  is_blank line = false -> is_header line = false ->
  indented line = false ->
  process_line st line = finalize st None.
Proof.
  intros E T B H I.
  rewrite (process_nonheader st line B H).
  assert (F : finalize_previous st line false = true).
  { unfold finalize_previous. unfold indented in I.
    rewrite (keyed_section st E), T, I. reflexivity. }
  rewrite F. reflexivity.
Qed.

Lemma finalize_spec (st : state) (nt : option section) :
  current_section st = Some sec ->
  truthy_opt (current_key st) = true ->
  mapping sec (finalize st nt) =
    Dict.set (mapping sec st) (key_of (current_key st))
             (description (current_desc_lines st))
  /\ current_section (finalize st nt) = nt
  /\ current_key (finalize st nt) = None
  /\ current_desc_lines (finalize st nt) = []
  /\ returns (finalize st nt) = returns st.
Proof.
  intros E T. open_state st. unfold finalize; simpl.
  rewrite T. destruct sec_keyed as [-> | ->]; simpl; auto.
Qed.

End Step.

(** ** Dictionaries *)

Section DictFacts.

Lemma get_set_same (d : Dict.dict) (k v : string) :
  Dict.get (Dict.set d k v) k = Some v.
Proof.
  induction d as [|[k' v'] d IH]; simpl.
  - rewrite String.eqb_refl. reflexivity.
  - destruct (String.eqb k' k) eqn:E; simpl; rewrite E; auto.
Qed.

Lemma get_set_other (d : Dict.dict) (k k' v : string) :
  k' <> k -> Dict.get (Dict.set d k' v) k = Dict.get d k.
Proof.
  intros N. induction d as [|[k0 v0] d IH]; simpl.
  - destruct (String.eqb k' k) eqn:E; [|reflexivity].
    apply String.eqb_eq in E. contradiction.
  - destruct (String.eqb k0 k') eqn:E; simpl.
    + apply String.eqb_eq in E. subst k0.
      destruct (String.eqb k' k) eqn:E'; [|reflexivity].
      apply String.eqb_eq in E'. contradiction.
    + rewrite IH. reflexivity.
Qed.

Lemma keys_set (d : Dict.dict) (k v : string) :
  Dict.keys (Dict.set d k v) =
  if in_dec string_dec k (Dict.keys d) then Dict.keys d
  else (Dict.keys d ++ [k])%list.
Proof.
  unfold Dict.keys. induction d as [|[k' v'] d IH]; simpl; [reflexivity|].
  destruct (String.eqb k' k) eqn:E; simpl.
  - apply String.eqb_eq in E. subst k'.
    destruct (string_dec k k); [reflexivity | congruence].
  - apply String.eqb_neq in E. rewrite IH.
    destruct (string_dec k' k); [contradiction|].
    destruct (in_dec string_dec k (map fst d)); reflexivity.
Qed.

Lemma keys_set_grow (d : Dict.dict) (k k' v : string) :
  In k (Dict.keys d) -> In k (Dict.keys (Dict.set d k' v)).
Proof.
  intros H. rewrite keys_set.
  destruct (in_dec string_dec k' (Dict.keys d)); [exact H|].
  apply in_or_app. left. exact H.
Qed.

Lemma keys_set_here (d : Dict.dict) (k v : string) :
  In k (Dict.keys (Dict.set d k v)).
Proof.
  rewrite keys_set.
  destruct (in_dec string_dec k (Dict.keys d)); [assumption|].
  apply in_or_app. right. left. reflexivity.
Qed.

Lemma keys_set_nodup (d : Dict.dict) (k v : string) :
  NoDup (Dict.keys d) -> NoDup (Dict.keys (Dict.set d k v)).
Proof.
  intros H. rewrite keys_set.
  destruct (in_dec string_dec k (Dict.keys d)) as [|N]; [exact H|].
  apply NoDup_rev in H. rewrite <- (rev_involutive (_ ++ _)%list).
  apply NoDup_rev. rewrite rev_app_distr. simpl.
  constructor; [|exact H]. rewrite <- in_rev. exact N.
Qed.

Lemma get_some_key (d : Dict.dict) (k v : string) :
  Dict.get d k = Some v -> In k (Dict.keys d).
Proof.
  induction d as [|[k' v'] d IH]; simpl; [discriminate|].
  destruct (String.eqb k' k) eqn:E.
  - apply String.eqb_eq in E. auto.
  - auto.
Qed.

Lemma nodup_once (l : list string) (k : string) :
  NoDup l -> In k l -> count_occ string_dec l k = 1.
Proof. intros N I. exact (proj1 (NoDup_count_occ' string_dec l) N k I). Qed.

End DictFacts.

(** ** What an iteration can change *)

Section Effects.

Lemma process_content_unsectioned (st : state) (line sl : string) :
  current_section st = None -> process_content st line sl = st.
Proof. intros E. unfold process_content. rewrite E. reflexivity. Qed.

Lemma finalize_section (st : state) (nt : option section) :
  current_section (finalize st nt) = nt
  /\ current_key (finalize st nt) = None.
Proof.
  open_state st. unfold finalize; simpl.
  repeat match goal with
         | |- context [if ?b then _ else _] => destruct b
         end; simpl; auto.
Qed.

(** The three things an iteration can do. *)
Lemma process_line_cases (st : state) (line : string) :
  process_line st line = st
  \/ (exists nt, process_line st line = finalize st nt)
  \/ process_line st line = process_content st line (strip line).
Proof.
  destruct (is_blank line) eqn:B.
  - left. apply process_blank. exact B.
  - destruct (is_header line) eqn:H.
    + right. left. eexists. apply process_header. exact H.
    + rewrite (process_nonheader st line B H).
      destruct (finalize_previous st line false).
      * right. left. exists None.
        apply process_content_unsectioned.
        apply (finalize_section st None).
      * right. right. reflexivity.
Qed.

Lemma truthy_opt_some (o : option string) :
  truthy_opt o = true -> exists k, o = Some k /\ truthy k = true.
Proof. destruct o as [k|]; simpl; [eauto | discriminate]. Qed.

Lemma store_pending_writes (sec : section) (st : state) :
  truthy_opt (current_key st) = true -> writes sec st (store_pending st).
Proof.
  intros T. destruct (truthy_opt_some _ T) as (k & E & Tk).
  open_state st. unfold store_pending, writes; simpl.
  destruct cs as [[]|]; simpl; destruct sec; simpl; auto;
    right; exists k; auto.
Qed.

Lemma finalize_writes (sec : section) (st : state) (nt : option section) :
  writes sec st (finalize st nt).
Proof.
  destruct (truthy_opt (current_key st)) eqn:T.
  - destruct (truthy_opt_some _ T) as (k & E & Tk).
    open_state st. unfold finalize, writes; simpl. simpl in T. rewrite T.
    destruct cs as [[]|]; simpl; destruct sec; simpl; auto;
      right; exists k; auto.
  - open_state st. unfold finalize, writes; simpl. rewrite T.
    destruct cs as [[]|]; simpl; destruct sec; simpl; auto.
Qed.

Lemma process_content_writes (sec : section) (st : state)
                             (line sl : string) :
  writes sec st (process_content st line sl).
Proof.
  unfold process_content.
  destruct (is_section (current_section st) Args
            || is_section (current_section st) Raises).
  - destruct (key_pattern line) as [[g1 g2]|].
    + destruct (truthy_opt (current_key st)) eqn:T.
      * destruct (store_pending_writes sec st T) as [W | W].
        -- left. exact W.
        -- right. exact W.
      * left. reflexivity.
    + destruct (truthy_opt (current_key st) && startswith line " ");
        left; destruct sec; reflexivity.
  - destruct (is_section (current_section st) Returns).
    + destruct (negb (truthy_list (current_desc_lines st))
                || startswith line " "); left; destruct sec; reflexivity.
    + left. reflexivity.
Qed.

Lemma process_line_writes (sec : section) (st : state) (line : string) :
  writes sec st (process_line st line).
Proof.
  destruct (process_line_cases st line) as [E | [[nt E] | E]]; rewrite E.
  - left. reflexivity.
  - apply finalize_writes.
  - apply process_content_writes.
Qed.

Lemma final_capture_writes (sec : section) (st : state) :
  writes sec st (final_capture st).
Proof.
  unfold final_capture.
  destruct (truthy_opt (current_key st)) eqn:T.
  - apply store_pending_writes. exact T.
  - destruct (is_section (current_section st) Returns
              && negb (truthy (returns st)));
      left; destruct sec; reflexivity.
Qed.

(** The pending key after an iteration. *)
Lemma process_line_key (st : state) (line : string) :
  current_key (process_line st line) = current_key st
  \/ current_key (process_line st line) = None
  \/ exists g1 g2, key_pattern line = Some (g1, g2)
                   /\ current_key (process_line st line) = Some g1.
Proof.
  destruct (process_line_cases st line) as [E | [[nt E] | E]]; rewrite E.
  - left. reflexivity.
  - right. left. apply finalize_section.
  - unfold process_content.
    destruct (is_section (current_section st) Args
              || is_section (current_section st) Raises).
    + destruct (key_pattern line) as [[g1 g2]|].
      * right. right. exists g1, g2. split; reflexivity.
      * destruct (truthy_opt (current_key st) && startswith line " ");
          left; reflexivity.
    + destruct (is_section (current_section st) Returns).
      * destruct (negb (truthy_list (current_desc_lines st))
                  || startswith line " "); left; reflexivity.
      * left. reflexivity.
Qed.

End Effects.

(** ** Invariants of the loop *)

Section Invariants.

Variable sec : section.
Hypothesis sec_keyed : sec = Args \/ sec = Raises.

Lemma writes_nodup (st st' : state) :
  writes sec st st' ->
  NoDup (Dict.keys (mapping sec st)) ->
  NoDup (Dict.keys (mapping sec st')).
Proof.
  intros [W | (k & _ & _ & _ & W)] N; rewrite W;
    [exact N | apply keys_set_nodup; exact N].
Qed.

Lemma writes_keys (st st' : state) (k : string) :
  writes sec st st' ->
  In k (Dict.keys (mapping sec st)) ->
  In k (Dict.keys (mapping sec st')).
Proof.
  intros [W | (k' & _ & _ & _ & W)] N; rewrite W;
    [exact N | apply keys_set_grow; exact N].
Qed.

Lemma writes_other (st st' : state) (k v : string) :
  writes sec st st' ->
  current_key st <> Some k ->
  Dict.get (mapping sec st) k = Some v ->
  Dict.get (mapping sec st') k = Some v.
Proof.
  intros [W | (k' & E & _ & _ & W)] N G; rewrite W; [exact G|].
  rewrite get_set_other; [exact G|]. congruence.
Qed.

Lemma scan_nodup (ls : list string) (st : state) :
  NoDup (Dict.keys (mapping sec st)) ->
  NoDup (Dict.keys (mapping sec (scan st ls))).
Proof.
  revert st. induction ls as [|l ls IH]; intros st N; [exact N|].
  rewrite scan_cons. apply IH.
  exact (writes_nodup _ _ (process_line_writes sec st l) N).
Qed.

Lemma result_nodup (ls : list string) :
  NoDup (Dict.keys (mapping sec (final_capture (scan initial ls)))).
Proof.
  apply (writes_nodup _ _ (final_capture_writes sec _)).
  apply scan_nodup. clear sec_keyed. destruct sec; constructor.
Qed.

(** A stored key keeps its value while no later line introduces it. *)
Lemma kept_step (st : state) (l k v : string) :
  Dict.get (mapping sec st) k = Some v ->
  current_key st <> Some k ->
  introduces k l = false ->
  Dict.get (mapping sec (process_line st l)) k = Some v
  /\ current_key (process_line st l) <> Some k.
Proof.
  intros G N I. split.
  - exact (writes_other _ _ k v (process_line_writes sec st l) N G).
  - destruct (process_line_key st l) as [E | [E | (g1 & g2 & K & E)]];
      rewrite E; [exact N | discriminate |].
    unfold introduces in I. rewrite K in I.
    apply String.eqb_neq in I. congruence.
Qed.

Lemma kept (post : list string) (st : state) (k v : string) :
  Dict.get (mapping sec st) k = Some v ->
  current_key st <> Some k ->
  forallb (fun l => negb (introduces k l)) post = true ->
  Dict.get (mapping sec (final_capture (scan st post))) k = Some v.
Proof.
  revert st. induction post as [|l post IH]; intros st G N F.
  - exact (writes_other _ _ k v (final_capture_writes sec st) N G).
  - simpl in F. apply andb_prop in F as [I F].
    apply negb_true_iff in I.
    destruct (kept_step st l k v G N I) as [G' N'].
    rewrite scan_cons. apply IH; assumption.
Qed.

(** An open entry is stored, with the description gathered so far, by
    the first line that is neither blank nor a continuation, or by the
    end of the input. *)
Lemma stored_at_close (post : list string) (st : state) (k : string) :
  current_section st = Some sec ->
  current_key st = Some k -> truthy k = true ->
  entry_ends post = true ->
  forallb (fun l => negb (introduces k l)) post = true ->
  Dict.get (mapping sec (final_capture (scan st post))) k
  = Some (description (current_desc_lines st)).
Proof.
  revert st. induction post as [|l post IH]; intros st E K T C F.
  - simpl. unfold final_capture. rewrite K. simpl. rewrite T.
    destruct (store_pending_spec sec sec_keyed st E) as (M & _).
    rewrite M, K. simpl. apply get_set_same.
  - simpl in C, F. apply andb_prop in F as [I F].
    apply negb_true_iff in I. rewrite scan_cons.
    assert (Tk : truthy_opt (current_key st) = true)
      by (rewrite K; exact T).
    destruct (is_blank l) eqn:B.
    { rewrite (process_blank st l B). apply IH; assumption. }
    apply negb_true_iff in C.
    destruct (is_header l) eqn:H.
    { rewrite (process_header st l H).
      destruct (finalize_spec sec sec_keyed st (header_of l) E Tk)
        as (M & _ & K' & _).
      apply kept; [|congruence|exact F].
      rewrite M, K. simpl. apply get_set_same. }
    destruct (indented l) eqn:D.
    2:{ rewrite (deindent_step sec sec_keyed st l E Tk B H D).
        destruct (finalize_spec sec sec_keyed st None E Tk)
          as (M & _ & K' & _).
        apply kept; [|congruence|exact F].
        rewrite M, K. simpl. apply get_set_same. }
    unfold is_continuation in C. rewrite B, H, D in C. simpl in C.
    apply negb_false_iff in C.
    destruct (key_pattern l) as [[g1 g2]|] eqn:P; [|discriminate].
    rewrite (key_line_step sec sec_keyed st l g1 g2 E H P B
               (or_introl D)).
    rewrite Tk.
    destruct (store_pending_spec sec sec_keyed st E) as (M & _).
    apply kept; [| |exact F].
    + replace (mapping sec (set_pending (store_pending st) (Some g1)
                                         [strip g2]))
        with (mapping sec (store_pending st))
        by (destruct sec; reflexivity).
      rewrite M, K. simpl. apply get_set_same.
    + simpl. unfold introduces in I. rewrite P in I.
      apply String.eqb_neq in I. congruence.
Qed.

(** An open entry is never lost: its key is in the mapping at the end. *)
Lemma pending_or_stored_step (st : state) (l k : string) :
  In k (Dict.keys (mapping sec st))
  \/ (current_section st = Some sec /\ current_key st = Some k
      /\ truthy k = true) ->
  In k (Dict.keys (mapping sec (process_line st l)))
  \/ (current_section (process_line st l) = Some sec
      /\ current_key (process_line st l) = Some k /\ truthy k = true).
Proof.
  intros [I | (E & K & T)].
  - left. exact (writes_keys _ _ k (process_line_writes sec st l) I).
  - assert (Tk : truthy_opt (current_key st) = true)
      by (rewrite K; exact T).
    destruct (process_line_cases st l) as [R | [[nt R] | R]]; rewrite R.
    + right. auto.
    + left. destruct (finalize_spec sec sec_keyed st nt E Tk) as (M & _).
      rewrite M, K. apply keys_set_here.
    + unfold process_content. rewrite (keyed_section sec sec_keyed st E).
      destruct (key_pattern l) as [[g1 g2]|].
      * left. rewrite Tk.
        destruct (store_pending_spec sec sec_keyed st E) as (M & _).
        replace (mapping sec (set_pending (store_pending st) (Some g1)
                                           [strip g2]))
          with (mapping sec (store_pending st))
          by (destruct sec; reflexivity).
        rewrite M, K. apply keys_set_here.
      * destruct (truthy_opt (current_key st) && startswith l " ");
          right; simpl; auto.
Qed.

Lemma pending_is_stored (post : list string) (st : state) (k : string) :
  In k (Dict.keys (mapping sec st))
  \/ (current_section st = Some sec /\ current_key st = Some k
      /\ truthy k = true) ->
  In k (Dict.keys (mapping sec (final_capture (scan st post)))).
Proof.
  revert st. induction post as [|l post IH]; intros st J.
  - simpl. destruct J as [I | (E & K & T)].
    + exact (writes_keys _ _ k (final_capture_writes sec st) I).
    + unfold final_capture. rewrite K. simpl. rewrite T.
      destruct (store_pending_spec sec sec_keyed st E) as (M & _).
      rewrite M, K. apply keys_set_here.
  - rewrite scan_cons. apply IH. apply pending_or_stored_step. exact J.
Qed.

(** Blank lines and continuation lines only extend the open entry. *)
Lemma scan_continuations (cs : list string) (st : state) :
  current_section st = Some sec ->
  truthy_opt (current_key st) = true ->
  forallb (fun l => is_blank l || is_continuation l) cs = true ->
  scan st cs = set_pending st (current_key st)
                 (current_desc_lines st ++ continuations cs).
Proof.
  revert st. induction cs as [|l cs IH]; intros st E T F.
  - simpl. unfold continuations. simpl. rewrite app_nil_r.
    destruct st; reflexivity.
  - simpl in F. apply andb_prop in F as [C F]. rewrite scan_cons.
    unfold continuations. simpl.
    destruct (is_blank l) eqn:B; simpl.
    + rewrite (process_blank st l B). apply IH; assumption.
    + simpl in C.
      rewrite (continuation_step sec sec_keyed st l E T C).
      rewrite IH; try assumption. simpl.
      rewrite <- app_assoc. reflexivity.
Qed.

End Invariants.

(** ** From the text to the loop *)

Section Text.

Lemma keychar_not_space (c : ascii) :
  iskeychar c = true -> isspace c = false.
Proof.
  destruct c as [[] [] [] [] [] [] [] []]; vm_compute; congruence.
Qed.

Lemma key_pattern_shape (line g1 g2 : string) :
  key_pattern line = Some (g1, g2) ->
  is_blank line = false /\ truthy g1 = true.
Proof.
  unfold key_pattern, is_blank, strip.
  destruct (lstrip line) as [|c s] eqn:L; simpl; [discriminate|].
  destruct (iskeychar c) eqn:K; [|discriminate].
  destruct (key_run s) as [k r].
  destruct (rstrip_keeps_head c s (keychar_not_space c K)) as [r' R].
  intros H. split.
  - simpl in R. rewrite R. reflexivity.
  - destruct (lstrip r) as [|c' t]; [discriminate|].
    destruct (Nat.eqb (code c') 58).
    + injection H as <- _. reflexivity.
    + destruct (Nat.eqb (code c') 40); [|discriminate].
      destruct (annotation_end t); [|discriminate].
      injection H as <- _. reflexivity.
Qed.

(** The result, once the lines of the text are known. *)
Lemma parse_docstring_lines (text first : string) (rest : list string) :
  splitlines (strip text) = first :: rest ->
  parse_docstring (Some text) =
    let st := final_capture (scan initial rest) in
    Returned (mkDoc (strip first) (args st) (returns st) (raises st)).
Proof.
  intros L. unfold parse_docstring.
  destruct text as [|c t]; [discriminate L|].
  simpl truthy. simpl negb. cbv iota.
  rewrite L. reflexivity.
Qed.

End Text.

(** ** Summary, totality and blank lines *)

(** C5. For a text with at least one character that is not whitespace, the
    summary of the result is the trimmed first line (index 0) of the
    trimmed text, whatever that line contains. *)
Theorem summary_is_first_line (text : string) :
  all_space text = false ->
  exists first rest doc,
    splitlines (strip text) = first :: rest
    /\ parse_docstring (Some text) = Returned doc
    /\ doc_summary doc = strip first.
Proof.
  intros H. destruct (strip_not_all_space text H) as (c & r & E).
  destruct (splitlines (strip text)) as [|first rest] eqn:L.
  - exfalso. rewrite E in L. exact (splitlines_nonempty c r L).
  - exists first, rest. eexists. split; [reflexivity|].
    split; [apply (parse_docstring_lines text first rest L)|].
    reflexivity.
Qed.

Lemma summary_is_first_line_witness :
  exists first rest doc,
    splitlines (strip (unlines ["  Args:  "; " x: a"])) = first :: rest
    /\ parse_docstring (Some (unlines ["  Args:  "; " x: a"])) = Returned doc
    /\ doc_summary doc = strip first.
Proof.
  apply (summary_is_first_line (unlines ["  Args:  "; " x: a"])).
  reflexivity.
Defined.

(** C6. Parsing never fails: it returns a record for every input, absent
    or not, and the empty record for an absent, an empty and an
    all-whitespace input. *)
Theorem parse_never_fails :
  (forall docstring, exists doc, parse_docstring docstring = Returned doc)
  /\ parse_docstring None = Returned empty_doc
  /\ parse_docstring (Some "") = Returned empty_doc
  /\ (forall text, all_space text = true ->
        parse_docstring (Some text) = Returned empty_doc).
Proof.
  split; [|split; [reflexivity | split; [reflexivity|]]].
  - intros [text|]; [|eexists; reflexivity].
    unfold parse_docstring.
    destruct (negb (truthy text)); [eexists; reflexivity|].
    destruct (splitlines (strip text)) as [|first rest];
      eexists; reflexivity.
  - intros text H. unfold parse_docstring.
    destruct (negb (truthy text)); [reflexivity|].
    rewrite (strip_all_space text H). reflexivity.
Qed.

Lemma parse_never_fails_witness :
  parse_docstring (Some (" " ++ nl ++ tab ++ "  ")) = Returned empty_doc.
Proof.
  apply (proj2 (proj2 (proj2 parse_never_fails))). reflexivity.
Defined.

(** C8. A blank line after the first line changes nothing: the text with
    the line and the text without it parse to the same record, and the
    iteration on a blank line leaves every variable of the loop as it
    was. *)
Theorem blank_line_is_inert
        (text text' first blank : string) (before after : list string) :
  splitlines (strip text) = first :: before ++ after ->
  splitlines (strip text') = first :: before ++ blank :: after ->
  strip blank = "" ->
  parse_docstring (Some text') = parse_docstring (Some text)
  /\ forall st, process_line st blank = st.
Proof.
  intros L L' B. apply strip_empty_blank in B.
  split; [|intros st; apply process_blank; exact B].
  rewrite (parse_docstring_lines text _ _ L).
  rewrite (parse_docstring_lines text' _ _ L').
  rewrite !scan_app, scan_cons, (process_blank _ blank B).
  reflexivity.
Qed.

Lemma blank_line_is_inert_witness :
  parse_docstring
    (Some (unlines ["s"; "Args:"; "  x: one"; "   "; "    two"]))
  = parse_docstring (Some (unlines ["s"; "Args:"; "  x: one"; "    two"]))
  /\ forall st, process_line st "   " = st.
Proof.
  apply (blank_line_is_inert
           (unlines ["s"; "Args:"; "  x: one"; "    two"])
           (unlines ["s"; "Args:"; "  x: one"; "   "; "    two"])
           "s" "   " ["Args:"; "  x: one"] ["    two"]);
    reflexivity.
Defined.

(** A description whose continuation follows a blank line is joined
    into one string. *)
Example blank_line_joins :
  parse_docstring
    (Some (unlines ["s"; "Args:"; "  x: one"; "   "; "    two"]))
  = Returned (mkDoc "s" [("x", "one two")] "" []).
Proof. reflexivity. Qed.

(** ** Key-lines, de-indentation and the Returns section *)

Section KeyLines.

Lemma finalize_previous_open (st : state) (line : string) :
  finalize_previous st line false = item_open st && negb (indented line).
Proof.
  unfold finalize_previous, item_open, indented.
  destruct (is_section (current_section st) Args
            || is_section (current_section st) Raises),
    (truthy_opt (current_key st)),
    (is_section (current_section st) Returns),
    (truthy_list (current_desc_lines st)),
    (startswith line " "); reflexivity.
Qed.

Lemma process_unsectioned (st : state) (line : string) :
  current_section st = None -> is_header line = false ->
  process_line st line = st.
Proof.
  intros E H. destruct (is_blank line) eqn:B.
  - apply process_blank. exact B.
  - rewrite (process_nonheader st line B H).
    unfold finalize_previous. rewrite E. simpl.
    apply process_content_unsectioned. exact E.
Qed.

Lemma scan_unsectioned (post : list string) (st : state) :
  current_section st = None ->
  forallb (fun l => negb (is_header l)) post = true ->
  scan st post = st.
Proof.
  induction post as [|l post IH]; intros E F; [reflexivity|].
  simpl in F. apply andb_prop in F as [H F].
  apply negb_true_iff in H.
  rewrite scan_cons, (process_unsectioned st l E H). apply IH; assumption.
Qed.

Lemma final_capture_unsectioned (st : state) :
  current_section st = None -> current_key st = None ->
  final_capture st = st.
Proof.
  intros E K. unfold final_capture. rewrite E, K. reflexivity.
Qed.

Lemma finalize_returns (st : state) (nt : option section) :
  current_section st = Some Returns ->
  returns (finalize st nt) = description (current_desc_lines st).
Proof.
  intros E. destruct st as [a r x cs ck ds]. simpl in E. subst cs.
  reflexivity.
Qed.

(** A header met in the Returns section stores the gathered lines,
    whatever [returns] held before. *)
Lemma header_flushes_returns (st : state) (line : string) :
  current_section st = Some Returns -> is_header line = true ->
  returns (process_line st line) = description (current_desc_lines st)
  /\ current_section (process_line st line) = header_of line.
Proof.
  intros E H. rewrite (process_header st line H). split.
  - apply finalize_returns. exact E.
  - apply finalize_section.
Qed.

(** At the end of the input the gathered lines are stored only if
    [returns] is still empty. *)
Lemma final_capture_returns (st : state) :
  current_section st = Some Returns -> current_key st = None ->
  returns (final_capture st) =
    if truthy (returns st) then returns st
    else description (current_desc_lines st).
Proof.
  intros E K. unfold final_capture. rewrite E, K. simpl.
  destruct (truthy (returns st)); reflexivity.
Qed.

End KeyLines.

(** C1, as stated, at an input where the second key-line starts with no
    space: the pending entry [x] is stored, but the section is left and
    the key [y] of the matching line is not in the returned mapping. *)
Lemma unindented_key_line_is_dropped :
  let before := scan initial ["Args:"; " x: a"] in
  current_section before = Some Args
  /\ current_key before = Some "x"
  /\ key_pattern "y: b" = Some ("y", "b")
  /\ is_header "y: b" = false
  /\ current_key (process_line before "y: b") = None
  /\ current_section (process_line before "y: b") = None
  /\ parse_docstring (Some (unlines ["s"; "Args:"; " x: a"; "y: b"]))
     = Returned (mkDoc "s" [("x", "a")] "" [])
  /\ Dict.get [("x", "a")] "y" = None.
Proof. repeat split. Qed.

(** C1, amended. Inside an Args or Raises section with a pending key, a
    line that is no section header, starts with a space and matches the
    key pattern stores the pending entry in the mapping of the section
    and opens a new entry under the captured key, whose first description
    line is the trimmed captured text; both keys are in the returned
    mapping, whatever lines follow. *)
Theorem key_line_after_pending_entry
        (sec : section) (st : state) (line k0 g1 g2 : string)
        (post : list string) :
  sec = Args \/ sec = Raises ->
  current_section st = Some sec ->
  current_key st = Some k0 -> truthy k0 = true ->
  is_header line = false ->
  indented line = true ->
  key_pattern line = Some (g1, g2) ->
  let st' := process_line st line in
  let final := final_capture (scan st' post) in
  mapping sec st' =
    Dict.set (mapping sec st) k0 (description (current_desc_lines st))
  /\ current_section st' = Some sec
  /\ current_key st' = Some g1
  /\ current_desc_lines st' = [strip g2]
  /\ In k0 (Dict.keys (mapping sec final))
  /\ In g1 (Dict.keys (mapping sec final)).
Proof.
  intros S E K T H I P st' final.
  destruct (key_pattern_shape line g1 g2 P) as [B T1].
  assert (Tk : truthy_opt (current_key st) = true) by (rewrite K; exact T).
  assert (R : st' = set_pending (store_pending st) (Some g1) [strip g2]).
  { unfold st'. rewrite (key_line_step sec S st line g1 g2 E H P B
                           (or_introl I)), Tk. reflexivity. }
  destruct (store_pending_spec sec S st E) as (M & E' & _).
  assert (M' : mapping sec st' =
               Dict.set (mapping sec st) k0
                        (description (current_desc_lines st))).
  { rewrite R. rewrite K in M. simpl in M. rewrite <- M.
    destruct sec; reflexivity. }
  assert (E1 : current_section st' = Some sec) by (rewrite R; exact E').
  assert (K1 : current_key st' = Some g1) by (rewrite R; reflexivity).
  repeat split; try assumption.
  - rewrite R. reflexivity.
  - apply (pending_is_stored sec S). left. rewrite M'. apply keys_set_here.
  - apply (pending_is_stored sec S). right. auto.
Qed.

Lemma key_line_after_pending_entry_witness :
  let st := scan initial ["Raises:"; " pkg.MyError: oops"] in
  let st' := process_line st "  ValueError (x): bad input " in
  let final := final_capture (scan st' ["Returns:"; " r"]) in
  mapping Raises st' =
    Dict.set (mapping Raises st) "pkg.MyError"
             (description (current_desc_lines st))
  /\ current_section st' = Some Raises
  /\ current_key st' = Some "ValueError"
  /\ current_desc_lines st' = [strip "bad input "]
  /\ In "pkg.MyError" (Dict.keys (mapping Raises final))
  /\ In "ValueError" (Dict.keys (mapping Raises final)).
Proof.
  apply (key_line_after_pending_entry
           Raises (scan initial ["Raises:"; " pkg.MyError: oops"])
           "  ValueError (x): bad input " "pkg.MyError"
           "ValueError" "bad input " ["Returns:"; " r"]);
    solve [right; reflexivity | reflexivity].
Defined.

(** C7, as stated, at two indented lines that match the key pattern while
    the key [x] is pending.  The line indented with a tab fails the
    indentation test of the code: the pending entry is stored, the
    section is left and no entry [y] is opened.  The indented line
    [Returns:] is a section header: it opens the Returns section and no
    entry of that name. *)
Lemma tab_indented_key_line_is_dropped :
  let before := scan initial ["Args:"; " x: a"] in
  current_section before = Some Args
  /\ current_key before = Some "x"
  /\ key_pattern (tab ++ "y: b") = Some ("y", "b")
  /\ is_blank (tab ++ "y: b") = false
  /\ is_header (tab ++ "y: b") = false
  /\ current_key (process_line before (tab ++ "y: b")) = None
  /\ current_section (process_line before (tab ++ "y: b")) = None
  /\ parse_docstring (Some (unlines ["s"; "Args:"; " x: a"; tab ++ "y: b"]))
     = Returned (mkDoc "s" [("x", "a")] "" [])
  /\ Dict.get [("x", "a")] "y" = None
  /\ key_pattern "    Returns:" = Some ("Returns", "")
  /\ indented "    Returns:" = true
  /\ current_key (process_line before "    Returns:") = None
  /\ current_section (process_line before "    Returns:") = Some Returns
  /\ parse_docstring (Some (unlines ["s"; "Args:"; " x: a"; "    Returns:"]))
     = Returned (mkDoc "s" [("x", "a")] "" []).
Proof. repeat split. Qed.

(** C7, amended. Inside an Args or Raises section with a pending key, a
    line whose first character is a space (the indentation test of the
    code) and that is no section header is read as a key-line whenever it
    matches the key pattern: the pending entry is stored with the
    description gathered before the line and a fresh entry is opened
    under the captured key.  Only a line that does not match is appended
    to the open entry. *)
Theorem indented_key_line_wins
        (sec : section) (st : state) (line k0 : string) :
  sec = Args \/ sec = Raises ->
  current_section st = Some sec ->
  current_key st = Some k0 -> truthy k0 = true ->
  is_blank line = false ->
  is_header line = false ->
  indented line = true ->
  match key_pattern line with
  | Some (g1, g2) =>
      process_line st line =
        set_pending (store_pending st) (Some g1) [strip g2]
      /\ Dict.get (mapping sec (process_line st line)) k0
         = Some (description (current_desc_lines st))
      /\ current_key (process_line st line) = Some g1
      /\ current_desc_lines (process_line st line) = [strip g2]
  | None =>
      process_line st line =
        set_pending st (Some k0) (current_desc_lines st ++ [strip line])
  end.
Proof.
  intros S E K T B H I.
  assert (Tk : truthy_opt (current_key st) = true) by (rewrite K; exact T).
  destruct (key_pattern line) as [[g1 g2]|] eqn:P.
  - assert (R : process_line st line =
                set_pending (store_pending st) (Some g1) [strip g2]).
    { rewrite (key_line_step sec S st line g1 g2 E H P B (or_introl I)), Tk.
      reflexivity. }
    rewrite R. repeat split.
    destruct (store_pending_spec sec S st E) as (M & _).
    replace (mapping sec (set_pending (store_pending st) (Some g1)
                                       [strip g2]))
      with (mapping sec (store_pending st)) by (destruct sec; reflexivity).
    rewrite M, K. apply get_set_same.
  - rewrite <- K. apply (continuation_step sec S st line E Tk).
    unfold is_continuation. rewrite B, H, I, P. reflexivity.
Qed.

Lemma indented_key_line_wins_witness :
  let st := scan initial ["Args:"; "    code: The string"] in
  let line := "        note: more text" in
  process_line st line = set_pending (store_pending st) (Some "note")
                                     [strip "more text"]
  /\ Dict.get (mapping Args (process_line st line)) "code"
     = Some (description (current_desc_lines st))
  /\ current_key (process_line st line) = Some "note"
  /\ current_desc_lines (process_line st line) = [strip "more text"].
Proof.
  exact (indented_key_line_wins
           Args (scan initial ["Args:"; "    code: The string"])
           "        note: more text" "code"
           (or_introl eq_refl) eq_refl eq_refl eq_refl eq_refl eq_refl
           eq_refl).
Defined.

(** C2, as stated, at an input where an unindented paragraph follows an
    open entry: after the paragraph the section is [None], and the later
    key-line [y], met before any header, is not captured. *)
Lemma section_is_left_on_deindent :
  let before := scan initial ["Args:"; " x: a"] in
  current_section before = Some Args
  /\ is_header "foo" = false /\ indented "foo" = false
  /\ current_section (process_line before "foo") = None
  /\ key_pattern " y: b" = Some ("y", "b")
  /\ is_header " y: b" = false
  /\ parse_docstring
       (Some (unlines ["s"; "Args:"; " x: a"; "foo"; " y: b"]))
     = Returned (mkDoc "s" [("x", "a")] "" [])
  /\ Dict.get [("x", "a")] "y" = None.
Proof. repeat split. Qed.

(** C2, amended. A line that is neither blank nor a header and starts
    with no space, met while an item is in progress, stores the item and
    resets the section to [None] together with the pending entry; the
    lines after it, up to the next header, are not captured: the result
    is the state right after the item was stored. *)
Theorem deindent_resets_section
        (st : state) (line : string) (post : list string) :
  item_open st = true ->
  is_blank line = false -> is_header line = false ->
  indented line = false ->
  forallb (fun l => negb (is_header l)) post = true ->
  process_line st line = finalize st None
  /\ current_section (process_line st line) = None
  /\ current_key (process_line st line) = None
  /\ current_desc_lines (process_line st line) = []
  /\ final_capture (scan (process_line st line) post) = finalize st None
  /\ (forall sec k, sec = Args \/ sec = Raises ->
        current_section st = Some sec -> current_key st = Some k ->
        mapping sec (finalize st None) =
          Dict.set (mapping sec st) k (description (current_desc_lines st)))
  /\ (current_section st = Some Returns ->
        returns (finalize st None) = description (current_desc_lines st)).
Proof.
  intros O B H I F.
  assert (R : process_line st line = finalize st None).
  { rewrite (process_nonheader st line B H), finalize_previous_open, O, I.
    simpl. apply process_content_unsectioned.
    apply (finalize_section st None). }
  destruct (finalize_section st None) as [E K].
  rewrite R.
  split; [reflexivity|]. split; [exact E|]. split; [exact K|].
  split; [destruct st; reflexivity|].
  split; [|split].
  - rewrite (scan_unsectioned post _ E F).
    apply final_capture_unsectioned; assumption.
  - intros sec k S Es Ks.
    assert (Tk : truthy_opt (current_key st) = true).
    { unfold item_open in O. rewrite (not_returns_section sec S st Es) in O.
      rewrite (keyed_section sec S st Es) in O. simpl in O.
      rewrite orb_false_r in O. exact O. }
    destruct (finalize_spec sec S st None Es Tk) as (M & _).
    rewrite M, Ks. reflexivity.
  - apply finalize_returns.
Qed.

Lemma deindent_resets_section_witness :
  let st := scan initial ["Args:"; " x: a"] in
  process_line st "foo" = finalize st None
  /\ current_section (process_line st "foo") = None
  /\ current_key (process_line st "foo") = None
  /\ current_desc_lines (process_line st "foo") = []
  /\ final_capture (scan (process_line st "foo") [" y: b"; "z: c"])
     = finalize st None
  /\ (forall sec k, sec = Args \/ sec = Raises ->
        current_section st = Some sec -> current_key st = Some k ->
        mapping sec (finalize st None) =
          Dict.set (mapping sec st) k (description (current_desc_lines st)))
  /\ (current_section st = Some Returns ->
        returns (finalize st None) = description (current_desc_lines st)).
Proof.
  apply (deindent_resets_section
           (scan initial ["Args:"; " x: a"]) "foo" [" y: b"; "z: c"]);
    reflexivity.
Defined.

(** C3. The code on a second Returns section that ends the input, where
    the final accumulation should be stored.  The header transition
    stored ["a"]; at the end of the input the section is Returns with
    ["b"] gathered, and the result keeps ["a"]. *)
Theorem final_returns_kept_from_earlier_flush :
  let lines := ["Returns:"; " a"; "Returns:"; " b"] in
  current_section (scan initial lines) = Some Returns
  /\ current_desc_lines (scan initial lines) = ["b"]
  /\ returns (scan initial lines) = "a"
  /\ parse_docstring (Some (unlines ("s" :: lines)))
     = Returned (mkDoc "s" [] "a" []).
Proof. repeat split. Qed.

(** ** Section headers *)

Section Headers.

Lemma in_tuple_In (s : string) (ts : list string) :
  in_tuple s ts = true <-> In s ts.
Proof.
  unfold in_tuple. rewrite existsb_exists. split.
  - intros (t & I & E). apply String.eqb_eq in E. subst t. exact I.
  - intros I. exists s. split; [exact I | apply String.eqb_refl].
Qed.

Lemma prefix_app (p s : string) :
  String.prefix p s = true <-> exists rest, s = p ++ rest.
Proof.
  revert s. induction p as [|a p IH]; intros s.
  - split; [intros _; exists s; reflexivity|].
    intros _. destruct s; reflexivity.
  - destruct s as [|b s]; simpl.
    + split; [discriminate | intros (rest & E); discriminate].
    + destruct (ascii_dec a b) as [<- | N].
      * rewrite IH. split; intros (rest & E); exists rest.
        -- rewrite E. reflexivity.
        -- injection E as E. exact E.
      * split; [discriminate|]. intros (rest & E).
        injection E as E _. congruence.
Qed.

Lemma startswith_any_app (s : string) (ps : list string) :
  startswith_any s ps = true <->
  exists p rest, In p ps /\ s = p ++ rest.
Proof.
  unfold startswith_any, startswith. rewrite existsb_exists. split.
  - intros (p & I & E). apply prefix_app in E as (rest & E). eauto.
  - intros (p & rest & I & E). exists p. split; [exact I|].
    apply prefix_app. eauto.
Qed.

Lemma lower_char_idem (c : ascii) :
  lower_char (lower_char c) = lower_char c.
Proof. destruct c as [[] [] [] [] [] [] [] []]; reflexivity. Qed.

Lemma isspace_lower_char (c : ascii) : isspace (lower_char c) = isspace c.
Proof. destruct c as [[] [] [] [] [] [] [] []]; reflexivity. Qed.

Lemma lower_cons (c : ascii) (s : string) :
  lower (String c s) = String (lower_char c) (lower s).
Proof. reflexivity. Qed.

Lemma lower_idem (s : string) : lower (lower s) = lower s.
Proof.
  induction s as [|c s IH]; [reflexivity|].
  rewrite !lower_cons, lower_char_idem, IH. reflexivity.
Qed.

Lemma lstrip_lower (s : string) : lstrip (lower s) = lower (lstrip s).
Proof.
  induction s as [|c s IH]; [reflexivity|].
  rewrite lower_cons. simpl. rewrite isspace_lower_char.
  destruct (isspace c); [exact IH | reflexivity].
Qed.

Lemma rstrip_lower (s : string) : rstrip (lower s) = lower (rstrip s).
Proof.
  induction s as [|c s IH]; [reflexivity|].
  rewrite lower_cons. simpl. rewrite IH, isspace_lower_char.
  destruct (rstrip s) as [|c' r].
  - change (lower "") with "". destruct (isspace c); reflexivity.
  - rewrite lower_cons. reflexivity.
Qed.

Lemma strip_lower (s : string) : strip (lower s) = lower (strip s).
Proof. unfold strip. rewrite lstrip_lower, rstrip_lower. reflexivity. Qed.

Lemma near_miss_not_header (h extra : string) (c : ascii) :
  In h exact_headers -> new_section_type (h ++ String c extra) = None.
Proof.
  intros [<- | [<- | [<- | [<- | [<- | []]]]]]; reflexivity.
Qed.

End Headers.

(** C4. On the lowercased trimmed line, the Args and Returns headers are
    recognised by equality with the listed strings and the Raises and
    Other headers by the listed prefixes; a line and its lowercase form
    are recognised alike, and a recognised header enters its section; an
    Args or Returns header followed by further text is no header, and the
    line goes through the content processing of the current section. *)
Theorem header_recognition :
  (forall sl, new_section_type sl = Some Args <->
              In sl ["args:"; "arguments:"; "parameters:"])
  /\ (forall sl, new_section_type sl = Some Returns <->
                 In sl ["returns:"; "yields:"])
  /\ (forall sl, new_section_type sl = Some Raises <->
                 exists p rest, In p raises_prefixes /\ sl = p ++ rest)
  /\ (forall sl, new_section_type sl = Some Other <->
                 exists p rest, In p other_prefixes /\ sl = p ++ rest)
  /\ (forall line, header_of (lower line) = header_of line)
  /\ (forall st line sec,
        header_of line = Some sec ->
        current_section (process_line st line) = Some sec)
  /\ (forall st line h c extra,
        In h exact_headers ->
        lower (strip line) = h ++ String c extra ->
        is_header line = false
        /\ process_line st line =
           process_content
             (if finalize_previous st line false
              then finalize st None else st)
             line (strip line)).
Proof.
  split; [|split; [|split; [|split; [|split; [|split]]]]].
  - intros sl. rewrite <- in_tuple_In. unfold new_section_type.
    destruct (in_tuple sl ["args:"; "arguments:"; "parameters:"]).
    + split; reflexivity.
    + split; [|refute].
      destruct (in_tuple sl ["returns:"; "yields:"]); [refute|].
      destruct (startswith_any sl _); [refute|].
      destruct (startswith_any sl _); refute.
  - intros sl. split.
    + unfold new_section_type.
      destruct (in_tuple sl ["args:"; "arguments:"; "parameters:"]);
        [refute|].
      destruct (in_tuple sl ["returns:"; "yields:"]) eqn:E.
      * intros _. apply in_tuple_In. exact E.
      * destruct (startswith_any sl _); [refute|].
        destruct (startswith_any sl _); refute.
    + intros [<- | [<- | []]]; reflexivity.
  - intros sl. split.
    + unfold new_section_type.
      destruct (in_tuple sl ["args:"; "arguments:"; "parameters:"]);
        [refute|].
      destruct (in_tuple sl ["returns:"; "yields:"]); [refute|].
      destruct (startswith_any sl
                  ["raises "; "raises:"; "errors:"; "exceptions:"]) eqn:E.
      * intros _. apply startswith_any_app in E. exact E.
      * destruct (startswith_any sl
                    ["attributes:"; "see also:"; "example:"; "examples:";
                     "notes:"]); refute.
    + intros (p & rest & [<- | [<- | [<- | [<- | []]]]] & ->);
        destruct rest; reflexivity.
  - intros sl. split.
    + unfold new_section_type.
      destruct (in_tuple sl ["args:"; "arguments:"; "parameters:"]);
        [refute|].
      destruct (in_tuple sl ["returns:"; "yields:"]); [refute|].
      destruct (startswith_any sl
                  ["raises "; "raises:"; "errors:"; "exceptions:"]);
        [refute|].
      destruct (startswith_any sl
                  ["attributes:"; "see also:"; "example:"; "examples:";
                   "notes:"]) eqn:E; [|discriminate].
      intros _. apply startswith_any_app in E. exact E.
    + intros (p & rest & [<- | [<- | [<- | [<- | [<- | []]]]]] & ->);
        destruct rest; reflexivity.
  - intros line. unfold header_of.
    rewrite strip_lower, lower_idem. reflexivity.
  - intros st line sec E.
    assert (H : is_header line = true)
      by (unfold is_header; rewrite E; reflexivity).
    rewrite (process_header st line H), E. apply finalize_section.
  - intros st line h c extra I E.
    assert (H : is_header line = false).
    { unfold is_header, header_of. rewrite E.
      rewrite (near_miss_not_header h extra c I). reflexivity. }
    split; [exact H|]. apply process_nonheader; [|exact H].
    unfold is_blank. destruct (strip line); [|reflexivity].
    destruct h; discriminate E.
Qed.

Lemma header_recognition_witness :
  is_header "  Args: extra" = false
  /\ process_line (scan initial ["ARGS:"]) "  Args: extra" =
     process_content
       (if finalize_previous (scan initial ["ARGS:"]) "  Args: extra" false
        then finalize (scan initial ["ARGS:"]) None
        else scan initial ["ARGS:"])
       "  Args: extra" (strip "  Args: extra").
Proof.
  apply (proj2 (proj2 (proj2 (proj2 (proj2 (proj2 header_recognition)))))
           (scan initial ["ARGS:"]) "  Args: extra" "args:" " "%char
           "extra").
  - left. reflexivity.
  - reflexivity.
Defined.

(** Headers in unusual casing open their sections, and a header with
    trailing text is read as a key-line of the current section. *)
Example header_casing_and_near_miss :
  header_of "  ARGS:" = Some Args
  /\ header_of "yIeLdS:  " = Some Returns
  /\ header_of "Raises ValueError" = Some Raises
  /\ header_of "See Also: other" = Some Other
  /\ header_of "Returns: int" = None
  /\ parse_docstring (Some (unlines ["s"; "ARGS:"; "  Args: extra"]))
     = Returned (mkDoc "s" [("Args", "extra")] "" []).
Proof. repeat split. Qed.

(** ** Entries of the mappings *)

Section Entries.

Variable sec : section.
Hypothesis sec_keyed : sec = Args \/ sec = Raises.

(** The state right after a key-line was read as such. *)
Lemma opened_entry (st : state) (line k g : string) :
  current_section st = Some sec ->
  is_header line = false ->
  key_pattern line = Some (k, g) ->
  indented line = true \/ truthy_opt (current_key st) = false ->
  current_section (process_line st line) = Some sec
  /\ current_key (process_line st line) = Some k
  /\ current_desc_lines (process_line st line) = [strip g]
  /\ truthy k = true.
Proof.
  intros E H P I. destruct (key_pattern_shape line k g P) as [B T].
  rewrite (key_line_step sec sec_keyed st line k g E H P B I).
  repeat split; try assumption. simpl.
  destruct (truthy_opt (current_key st)); [|exact E].
  apply (store_pending_spec sec sec_keyed st E).
Qed.

(** The state after the blank and continuation lines under an entry. *)
Lemma extended_entry (st : state) (cs : list string) (k : string) :
  current_section st = Some sec ->
  current_key st = Some k -> truthy k = true ->
  forallb (fun l => is_blank l || is_continuation l) cs = true ->
  current_section (scan st cs) = Some sec
  /\ current_key (scan st cs) = Some k
  /\ current_desc_lines (scan st cs)
     = (current_desc_lines st ++ continuations cs)%list.
Proof.
  intros E K T F.
  assert (Tk : truthy_opt (current_key st) = true) by (rewrite K; exact T).
  rewrite (scan_continuations sec sec_keyed cs st E Tk F).
  repeat split; assumption.
Qed.

End Entries.

Lemma doc_mapping_state (sec : section) (summary : string) (st : state) :
  doc_mapping sec (mkDoc summary (args st) (returns st) (raises st))
  = mapping sec st.
Proof. destruct sec; reflexivity. Qed.

Lemma entry_split (rest : list string) :
  rest = (entry_body rest ++ after_entry rest)%list.
Proof.
  induction rest as [|l rest IH]; [reflexivity|]. simpl.
  destruct (is_blank l || is_continuation l); [|reflexivity].
  simpl. rewrite <- IH. reflexivity.
Qed.

Lemma entry_body_lines (rest : list string) :
  forallb (fun l => is_blank l || is_continuation l) (entry_body rest)
  = true.
Proof.
  induction rest as [|l rest IH]; [reflexivity|]. simpl.
  destruct (is_blank l || is_continuation l) eqn:E; [|reflexivity].
  simpl. rewrite E, IH. reflexivity.
Qed.

Lemma after_entry_ends (rest : list string) :
  entry_ends (after_entry rest) = true.
Proof.
  induction rest as [|l rest IH]; [reflexivity|]. simpl.
  destruct (is_blank l || is_continuation l) eqn:E; [exact IH|].
  apply orb_false_elim in E as [B C]. simpl. rewrite B, C. reflexivity.
Qed.

Lemma after_entry_forallb (p : string -> bool) (rest : list string) :
  forallb p rest = true -> forallb p (after_entry rest) = true.
Proof.
  induction rest as [|l rest IH]; intros F; [reflexivity|]. simpl.
  destruct (is_blank l || is_continuation l); [|exact F].
  simpl in F. apply andb_prop in F as [_ F]. apply IH, F.
Qed.

(** C9, as stated, at an input whose second key-line starts with no
    space: both lines match the key pattern with the key [x] inside the
    Args section, and the returned mapping binds [x] to the earlier
    description. *)
Lemma unindented_duplicate_is_dropped :
  current_section (scan initial ["Args:"]) = Some Args
  /\ key_pattern " x: first" = Some ("x", "first")
  /\ key_pattern "x: second" = Some ("x", "second")
  /\ is_header "x: second" = false
  /\ parse_docstring (Some (unlines ["s"; "Args:"; " x: first"; "x: second"]))
     = Returned (mkDoc "s" [("x", "first")] "" [])
  /\ Dict.get [("x", "first")] "x" <> Some "second".
Proof. repeat split. discriminate. Qed.

(** C9, amended. When a key is introduced again by a line that is read as
    a key-line inside the Args (or Raises) section (the line is no
    section header, and it starts with a space or meets no pending key),
    and no line after it matches the pattern with that key, the returned
    mapping holds the key once, bound to the description of this last
    key-line: its own trimmed text joined with its continuation lines.
    This holds whatever stands before the line, in particular any
    earlier key-line of the same key and any lines between the two;
    nothing of the earlier entry remains. *)
Theorem last_key_line_wins
        (sec : section) (text first l1 l2 k g1 g2 : string)
        (before between rest : list string) :
  sec = Args \/ sec = Raises ->
  splitlines (strip text) = first :: before ++ l1 :: between ++ l2 :: rest ->
  key_pattern l1 = Some (k, g1) ->
  current_section (scan initial (before ++ l1 :: between)) = Some sec ->
  is_header l2 = false -> key_pattern l2 = Some (k, g2) ->
  indented l2 = true
  \/ truthy_opt (current_key (scan initial (before ++ l1 :: between)))
     = false ->
  forallb (fun l => negb (introduces k l)) rest = true ->
  exists doc,
    parse_docstring (Some text) = Returned doc
    /\ Dict.get (doc_mapping sec doc) k
       = Some (description (strip g2 :: continuations (entry_body rest)))
    /\ count_occ string_dec (Dict.keys (doc_mapping sec doc)) k = 1.
Proof.
  intros S L _ E H2 P2 I2 N.
  eexists. split; [apply (parse_docstring_lines text _ _ L)|].
  cbv zeta. rewrite (doc_mapping_state sec).
  assert (G : Dict.get
                (mapping sec
                   (final_capture
                      (scan initial
                         (before ++ l1 :: between ++ l2 :: rest)))) k
              = Some (description
                        (strip g2 :: continuations (entry_body rest)))).
  { replace (before ++ l1 :: between ++ l2 :: rest)%list
      with ((before ++ l1 :: between) ++ l2 :: rest)%list
      by (rewrite <- app_assoc; reflexivity).
    rewrite scan_app, scan_cons.
    set (st := scan initial (before ++ l1 :: between)) in *.
    destruct (opened_entry sec S st l2 k g2 E H2 P2 I2)
      as (E3 & K3 & D3 & T).
    set (st3 := process_line st l2) in *.
    rewrite (entry_split rest) at 1. rewrite scan_app.
    destruct (extended_entry sec S st3 (entry_body rest) k E3 K3 T
                (entry_body_lines rest)) as (E4 & K4 & D4).
    rewrite (stored_at_close sec S (after_entry rest) _ k E4 K4 T
               (after_entry_ends rest) (after_entry_forallb _ rest N)).
    rewrite D4, D3. reflexivity. }
  split; [exact G|].
  apply nodup_once; [apply result_nodup | exact (get_some_key _ _ _ G)].
Qed.

Lemma last_key_line_wins_witness :
  exists doc,
    parse_docstring
      (Some (unlines ["Sum."; "Args:"; "  x: first"; "    text";
                      "  y: other"; "Returns:"; "  r"; "Args:";
                      "x (int): second"; ""; "    one";
                      "Raises:"; "  E: e"]))
    = Returned doc
    /\ Dict.get (doc_mapping Args doc) "x"
       = Some (description
                 (strip "second"
                  :: continuations
                       (entry_body [""; "    one"; "Raises:"; "  E: e"])))
    /\ count_occ string_dec (Dict.keys (doc_mapping Args doc)) "x" = 1.
Proof.
  apply (last_key_line_wins
           Args _ "Sum." "  x: first" "x (int): second" "x"
           "first" "second"
           ["Args:"] ["    text"; "  y: other"; "Returns:"; "  r"; "Args:"]
           [""; "    one"; "Raises:"; "  E: e"]);
    solve [left; reflexivity | right; reflexivity | reflexivity].
Defined.

(** The record of that input: the key keeps its first place and holds the
    last description. *)
Example last_key_line_record :
  parse_docstring
    (Some (unlines ["Sum."; "Args:"; "  x: first"; "    text";
                    "  y: other"; "Returns:"; "  r"; "Args:";
                    "x (int): second"; ""; "    one";
                    "Raises:"; "  E: e"]))
  = Returned (mkDoc "Sum." [("x", "second one"); ("y", "other")] "r"
                    [("E", "e")]).
Proof. reflexivity. Qed.

(** The record for such an input. *)
Example duplicate_key_record :
  parse_docstring
    (Some (unlines ["Sum."; "Args:"; "  x: first"; "    text";
                    "  x (int): second"; ""; "    one"; "Returns:"; "  r"]))
  = Returned (mkDoc "Sum." [("x", "second one")] "r" []).
Proof. reflexivity. Qed.

(** C10, as stated, at two inputs.  In the first the line [ValueError:]
    starts with no space while [KeyError] is pending: the pending entry
    is stored, the section is left, and [ValueError] is not in the
    mapping.  In the second the key [x] is introduced again with a text:
    it is bound to that text, not to the empty string. *)
Lemma unindented_empty_key_line_is_dropped :
  current_key (scan initial ["Raises:"; " KeyError: k"]) = Some "KeyError"
  /\ key_pattern "ValueError:" = Some ("ValueError", "")
  /\ is_header "ValueError:" = false
  /\ parse_docstring
       (Some (unlines ["s"; "Raises:"; " KeyError: k"; "ValueError:"]))
     = Returned (mkDoc "s" [] "" [("KeyError", "k")])
  /\ Dict.get [("KeyError", "k")] "ValueError" = None
  /\ key_pattern " x:" = Some ("x", "")
  /\ entry_ends [" x: later"] = true
  /\ parse_docstring (Some (unlines ["s"; "Args:"; " x:"; " x: later"]))
     = Returned (mkDoc "s" [("x", "later")] "" [])
  /\ Dict.get [("x", "later")] "x" <> Some "".
Proof. repeat split. discriminate. Qed.

(** C10, amended. A key-line whose colon is followed by nothing still
    opens an entry when it is read as a key-line (it is no section
    header, and it starts with a space or meets no pending key): its key
    is in the returned mapping of its section, and it is bound to the
    empty string when no continuation line follows it and no later line
    introduces the key again. *)
Theorem empty_description_entry
        (sec : section) (text first line k g2 : string)
        (pre post : list string) :
  sec = Args \/ sec = Raises ->
  splitlines (strip text) = first :: pre ++ line :: post ->
  current_section (scan initial pre) = Some sec ->
  is_header line = false ->
  key_pattern line = Some (k, g2) -> strip g2 = "" ->
  indented line = true
  \/ truthy_opt (current_key (scan initial pre)) = false ->
  exists doc,
    parse_docstring (Some text) = Returned doc
    /\ In k (Dict.keys (doc_mapping sec doc))
    /\ (entry_ends post = true ->
        forallb (fun l => negb (introduces k l)) post = true ->
        Dict.get (doc_mapping sec doc) k = Some "").
Proof.
  intros S L E0 H P G I.
  eexists. split; [apply (parse_docstring_lines text _ _ L)|].
  cbv zeta. rewrite (doc_mapping_state sec).
  rewrite scan_app, scan_cons.
  destruct (opened_entry sec S (scan initial pre) line k g2 E0 H P I)
    as (E1 & K1 & D1 & T).
  split.
  - apply (pending_is_stored sec S). right. auto.
  - intros X N.
    rewrite (stored_at_close sec S post _ k E1 K1 T X N), D1, G.
    reflexivity.
Qed.

Lemma empty_description_entry_witness :
  exists doc,
    parse_docstring
      (Some (unlines ["Sum."; "Raises:"; "ValueError:"; ""; "Notes:"; " n"]))
    = Returned doc
    /\ In "ValueError" (Dict.keys (doc_mapping Raises doc))
    /\ (entry_ends [""; "Notes:"; " n"] = true ->
        forallb (fun l => negb (introduces "ValueError" l))
                [""; "Notes:"; " n"] = true ->
        Dict.get (doc_mapping Raises doc) "ValueError" = Some "").
Proof.
  apply (empty_description_entry
           Raises _ "Sum." "ValueError:" "ValueError" ""
           ["Raises:"] [""; "Notes:"; " n"]);
    solve [right; reflexivity | reflexivity].
Defined.

(** An indented key and an unindented one, with nothing after the
    colon. *)
Example empty_description_records :
  parse_docstring (Some (unlines ["Sum."; "Args:"; "    x:"]))
  = Returned (mkDoc "Sum." [("x", "")] "" [])
  /\ parse_docstring (Some (unlines ["Sum."; "Raises:"; "ValueError:"]))
     = Returned (mkDoc "Sum." [] "" [("ValueError", "")]).
Proof. split; reflexivity. Qed.


(** * Further properties of [parse_docstring] *)

(** ** Trimming and line splitting *)

Section Trimming.

Lemma lstrip_head (c : ascii) (r : string) :
  isspace c = false -> lstrip (String c r) = String c r.
Proof. intros E. simpl. rewrite E. reflexivity. Qed.

Lemma rstrip_idem (s : string) : rstrip (rstrip s) = rstrip s.
Proof.
  induction s as [|c s IH]; [reflexivity|]. simpl.
  destruct (rstrip s) as [|c' r] eqn:R.
  - destruct (isspace c) eqn:E; [reflexivity|]. simpl. rewrite E.
    reflexivity.
  - change (rstrip (String c (String c' r)))
      with (match rstrip (String c' r) with
            | "" => if isspace c then "" else String c ""
            | String a b => String c (String a b)
            end).
    rewrite IH. reflexivity.
Qed.

Lemma strip_idem (s : string) : strip (strip s) = strip s.
Proof.
  unfold strip. destruct (all_space s) eqn:A.
  - rewrite (lstrip_all_space s A). reflexivity.
  - destruct (lstrip_not_all_space s A) as (c & r & E & Hc). rewrite E.
    destruct (rstrip_keeps_head c r Hc) as [r' R].
    rewrite R at 1. rewrite (lstrip_head c r' Hc), <- R.
    apply rstrip_idem.
Qed.

Lemma strip_head (s : string) :
  all_space s = false ->
  exists c r, strip s = String c r /\ isspace c = false.
Proof.
  intros A. destruct (lstrip_not_all_space s A) as (c & r & E & Hc).
  unfold strip. rewrite E.
  destruct (rstrip_keeps_head c r Hc) as [r' R]. eauto.
Qed.

Lemma strip_of_head (c : ascii) (r : string) :
  isspace c = false -> exists r', strip (String c r) = String c r'.
Proof.
  intros Hc. unfold strip. rewrite (lstrip_head c r Hc).
  apply rstrip_keeps_head. exact Hc.
Qed.

Lemma linebreak_is_space (c : ascii) :
  islinebreak c = true -> isspace c = true.
Proof. destruct c as [[] [] [] [] [] [] [] []]; vm_compute; congruence. Qed.

Lemma not_space_not_linebreak (c : ascii) :
  isspace c = false -> islinebreak c = false.
Proof.
  intros E. destruct (islinebreak c) eqn:L; [|reflexivity].
  apply linebreak_is_space in L. congruence.
Qed.

Lemma append_char_assoc (a : string) (c : ascii) (b : string) :
  (a ++ String c "") ++ b = a ++ String c b.
Proof. induction a as [|x a IH]; simpl; [|rewrite IH]; reflexivity. Qed.

Lemma append_empty (a : string) : a ++ "" = a.
Proof. induction a as [|x a IH]; simpl; [|rewrite IH]; reflexivity. Qed.

Lemma no_linebreak_snoc (cur : string) (c : ascii) :
  no_linebreak cur = true -> islinebreak c = false ->
  no_linebreak (cur ++ String c "") = true.
Proof.
  intros N E. induction cur as [|x cur IH]; simpl in *.
  - rewrite E. reflexivity.
  - apply andb_prop in N as [X N]. rewrite X. simpl. apply IH. exact N.
Qed.

Lemma splitlines_from_no_linebreak (s cur : string) (after_cr : bool) :
  no_linebreak cur = true ->
  Forall (fun l => no_linebreak l = true) (splitlines_from s cur after_cr).
Proof.
  revert cur after_cr. induction s as [|c s IH]; intros cur b N; simpl.
  - destruct cur; constructor; [exact N | constructor].
  - destruct (b && Nat.eqb (code c) 10); [apply IH; exact N|].
    destruct (islinebreak c) eqn:L.
    + constructor; [exact N | apply IH; reflexivity].
    + apply IH. apply no_linebreak_snoc; assumption.
Qed.

Lemma splitlines_no_linebreak (s : string) :
  Forall (fun l => no_linebreak l = true) (splitlines s).
Proof. apply splitlines_from_no_linebreak. reflexivity. Qed.

Lemma splitlines_from_head (s : string) (c : ascii) (t : string) :
  exists t' rest,
    splitlines_from s (String c t) false = String c t' :: rest.
Proof.
  revert t. induction s as [|a s IH]; intros t; simpl.
  - eauto.
  - destruct (islinebreak a); [eauto|]. apply IH.
Qed.

Lemma splitlines_from_single (s cur : string) :
  no_linebreak s = true ->
  splitlines_from s cur false =
    match cur ++ s with "" => [] | x => [x] end.
Proof.
  revert cur. induction s as [|c s IH]; intros cur N; simpl in *.
  - rewrite append_empty. destruct cur; reflexivity.
  - apply andb_prop in N as [L N]. apply negb_true_iff in L.
    rewrite L, (IH _ N), append_char_assoc. reflexivity.
Qed.

Lemma splitlines_single (c : ascii) (r : string) :
  no_linebreak (String c r) = true ->
  splitlines (String c r) = [String c r].
Proof.
  intros N. unfold splitlines.
  rewrite (splitlines_from_single _ "" N). reflexivity.
Qed.

Lemma no_linebreak_lstrip (s : string) :
  no_linebreak s = true -> no_linebreak (lstrip s) = true.
Proof.
  induction s as [|c s IH]; intros N; simpl in *; [reflexivity|].
  apply andb_prop in N as [L N].
  destruct (isspace c); [apply IH; exact N|].
  simpl. rewrite L, N. reflexivity.
Qed.

Lemma no_linebreak_rstrip (s : string) :
  no_linebreak s = true -> no_linebreak (rstrip s) = true.
Proof.
  induction s as [|c s IH]; intros N; simpl in *; [reflexivity|].
  apply andb_prop in N as [L N]. specialize (IH N).
  destruct (rstrip s) as [|c' r].
  - destruct (isspace c); [reflexivity|]. simpl. rewrite L. reflexivity.
  - change (no_linebreak (String c (String c' r)))
      with (negb (islinebreak c) && no_linebreak (String c' r)).
    rewrite L, IH. reflexivity.
Qed.

Lemma no_linebreak_strip (s : string) :
  no_linebreak s = true -> no_linebreak (strip s) = true.
Proof.
  intros N. unfold strip.
  apply no_linebreak_rstrip, no_linebreak_lstrip, N.
Qed.

(** The first line of a text that is not blank, and its trimmed form. *)
Lemma first_line_shape (text : string) :
  all_space text = false ->
  exists first rest c r,
    splitlines (strip text) = first :: rest
    /\ strip first = String c r /\ isspace c = false
    /\ no_linebreak (strip first) = true.
Proof.
  intros A. destruct (strip_head text A) as (c & r & E & Hc).
  rewrite E. unfold splitlines. simpl.
  rewrite (not_space_not_linebreak c Hc).
  destruct (splitlines_from_head r c "") as (t' & rest & S).
  simpl in S. rewrite S.
  destruct (strip_of_head c t' Hc) as [r' R].
  exists (String c t'), rest, c, r'.
  repeat split; try assumption.
  apply no_linebreak_strip.
  pose proof (splitlines_from_no_linebreak r (String c "") false) as F.
  simpl in F. rewrite (not_space_not_linebreak c Hc) in F.
  specialize (F eq_refl). rewrite S in F.
  inversion F; assumption.
Qed.

Lemma parse_all_space (text : string) :
  all_space text = true -> parse_docstring (Some text) = Returned empty_doc.
Proof.
  intros A. unfold parse_docstring.
  destruct (negb (truthy text)); [reflexivity|].
  rewrite (strip_all_space text A). reflexivity.
Qed.

Lemma parse_single_line (c : ascii) (r : string) :
  strip (String c r) = String c r ->
  no_linebreak (String c r) = true ->
  parse_docstring (Some (String c r))
  = Returned (mkDoc (String c r) [] "" []).
Proof.
  intros S N.
  rewrite (parse_docstring_lines (String c r) (String c r) []).
  - cbv zeta. rewrite S. reflexivity.
  - rewrite S. apply splitlines_single. exact N.
Qed.

End Trimming.

(** ** The summary and the surrounding whitespace *)

(** X1. The summary is one trimmed line, and it is empty only when the
    docstring is absent or blank. *)
Theorem summary_single_trimmed_line
        (docstring : option string) (doc : ParsedDoc) :
  parse_docstring docstring = Returned doc ->
  strip (doc_summary doc) = doc_summary doc
  /\ no_linebreak (doc_summary doc) = true
  /\ (doc_summary doc = "" <->
      match docstring with
      | None => True
      | Some text => all_space text = true
      end).
Proof.
  destruct docstring as [text|].
  2:{ intros H. injection H as <-. repeat split; auto. }
  destruct (all_space text) eqn:A.
  - rewrite (parse_all_space text A). intros H. injection H as <-.
    repeat split; auto.
  - destruct (first_line_shape text A)
      as (first & rest & c & r & L & S & _ & N).
    rewrite (parse_docstring_lines text first rest L). cbv zeta.
    intros H. injection H as <-. simpl.
    split; [apply strip_idem|]. split; [exact N|].
    rewrite S. split; discriminate.
Qed.

Lemma summary_single_trimmed_line_witness :
  strip "Adds two numbers." = "Adds two numbers."
  /\ no_linebreak "Adds two numbers." = true
  /\ ("Adds two numbers." = "" <->
      all_space (unlines ["  Adds two numbers.  "; ""; "Args:"; " x: a"])
      = true).
Proof.
  exact (summary_single_trimmed_line
           (Some (unlines ["  Adds two numbers.  "; ""; "Args:"; " x: a"]))
           (mkDoc "Adds two numbers." [("x", "a")] "" []) eq_refl).
Defined.

(** X2. Parsing the summary of a result on its own gives that summary back,
    with empty mappings and an empty return description. *)
Theorem summary_reparse (docstring : option string) (doc : ParsedDoc) :
  parse_docstring docstring = Returned doc ->
  parse_docstring (Some (doc_summary doc))
  = Returned (mkDoc (doc_summary doc) [] "" []).
Proof.
  destruct docstring as [text|].
  2:{ intros H. injection H as <-. reflexivity. }
  destruct (all_space text) eqn:A.
  - rewrite (parse_all_space text A). intros H. injection H as <-.
    reflexivity.
  - destruct (first_line_shape text A)
      as (first & rest & c & r & L & S & _ & N).
    rewrite (parse_docstring_lines text first rest L). cbv zeta.
    intros H. injection H as <-. simpl.
    pose proof (strip_idem first) as I. rewrite S in I, N. rewrite S.
    apply parse_single_line; assumption.
Qed.

Lemma summary_reparse_witness :
  parse_docstring (Some "Adds two numbers.")
  = Returned (mkDoc "Adds two numbers." [] "" []).
Proof.
  exact (summary_reparse
           (Some (unlines ["  Adds two numbers.  "; ""; "Args:"; " x: a"]))
           (mkDoc "Adds two numbers." [("x", "a")] "" []) eq_refl).
Defined.

(** X3. Whitespace around the whole docstring does not matter: the trimmed
    text parses to the same result. *)
Theorem surrounding_whitespace_ignored (text : string) :
  parse_docstring (Some (strip text)) = parse_docstring (Some text).
Proof.
  destruct (all_space text) eqn:A.
  - rewrite (parse_all_space text A), (strip_all_space text A).
    reflexivity.
  - destruct (first_line_shape text A) as (first & rest & _ & _ & L & _).
    rewrite (parse_docstring_lines text first rest L).
    apply parse_docstring_lines. rewrite strip_idem. exact L.
Qed.

(** ** What the fields of the result can hold *)

Section Fields.

Lemma key_run_keychars (s k r : string) :
  key_run s = (k, r) -> all_keychars k = true.
Proof.
  revert k r. induction s as [|c s IH]; intros k r; simpl.
  - intros H. injection H as <- _. reflexivity.
  - destruct (iskeychar c) eqn:E.
    + destruct (key_run s) as [k' r'] eqn:R.
      intros H. injection H as <- _. simpl. rewrite E.
      apply (IH k' r'). reflexivity.
    + intros H. injection H as <- _. reflexivity.
Qed.

Lemma key_pattern_valid (line g1 g2 : string) :
  key_pattern line = Some (g1, g2) -> valid_key g1 = true.
Proof.
  intros P. destruct (key_pattern_shape line g1 g2 P) as [_ T].
  unfold valid_key. rewrite T. simpl.
  unfold key_pattern in P.
  destruct (key_run (lstrip line)) as [k r] eqn:R.
  pose proof (key_run_keychars _ _ _ R) as A.
  destruct k as [|c k]; [discriminate|].
  destruct (lstrip r) as [|c' t]; [discriminate|].
  destruct (Nat.eqb (code c') 58).
  - injection P as <- _. exact A.
  - destruct (Nat.eqb (code c') 40); [|discriminate].
    destruct (annotation_end t); [|discriminate].
    injection P as <- _. exact A.
Qed.

Lemma set_entries (d : Dict.dict) (k0 v0 k v : string) :
  In (k, v) (Dict.set d k0 v0) -> In (k, v) d \/ (k = k0 /\ v = v0).
Proof.
  induction d as [|[k' v'] d IH]; simpl.
  - intros [H | []]. injection H as <- <-. auto.
  - destruct (String.eqb k' k0) eqn:E; simpl.
    + apply String.eqb_eq in E. subst k'.
      intros [H | H]; [injection H as <- <- | ]; auto.
    + intros [H | H]; [auto|]. destruct (IH H); auto.
Qed.

Lemma set_keys (d : Dict.dict) (k0 v0 k : string) :
  In k (Dict.keys (Dict.set d k0 v0)) -> In k (Dict.keys d) \/ k = k0.
Proof.
  rewrite keys_set.
  destruct (in_dec string_dec k0 (Dict.keys d)); [auto|].
  intros H. apply in_app_or in H as [H | [H | []]]; auto.
Qed.

Lemma store_pending_section (st : state) :
  current_section (store_pending st) = current_section st
  /\ returns (store_pending st) = returns st.
Proof.
  unfold store_pending.
  destruct (is_section (current_section st) Args); [split; reflexivity|].
  destruct (is_section (current_section st) Raises); split; reflexivity.
Qed.

Lemma process_content_section (st : state) (line sl : string) :
  current_section (process_content st line sl) = current_section st
  /\ returns (process_content st line sl) = returns st.
Proof.
  unfold process_content.
  destruct (is_section (current_section st) Args
            || is_section (current_section st) Raises).
  - destruct (key_pattern line) as [[g1 g2]|].
    + destruct (truthy_opt (current_key st)); simpl;
        [apply store_pending_section | split; reflexivity].
    + destruct (truthy_opt (current_key st) && startswith line " ");
        split; reflexivity.
  - destruct (is_section (current_section st) Returns);
      [|split; reflexivity].
    destruct (negb (truthy_list (current_desc_lines st))
              || startswith line " "); split; reflexivity.
Qed.

(** The section after an iteration. *)
Lemma process_line_section (st : state) (line : string) :
  current_section (process_line st line) = current_section st
  \/ current_section (process_line st line) = None
  \/ (is_header line = true
      /\ current_section (process_line st line) = header_of line).
Proof.
  destruct (is_blank line) eqn:B.
  - left. rewrite (process_blank st line B). reflexivity.
  - destruct (is_header line) eqn:H.
    + right. right. split; [reflexivity|].
      rewrite (process_header st line H). apply finalize_section.
    + rewrite (process_nonheader st line B H).
      destruct (finalize_previous st line false).
      * right. left.
        rewrite (proj1 (process_content_section _ _ _)).
        apply finalize_section.
      * left. apply process_content_section.
Qed.

Lemma finalize_writes_returns (st : state) (nt : option section) :
  writes_returns st (finalize st nt).
Proof.
  unfold writes_returns. destruct st as [a r x cs ck ds].
  unfold finalize. simpl.
  destruct cs as [[]|]; simpl; destruct (truthy_opt ck); simpl; auto.
Qed.

Lemma process_line_writes_returns (st : state) (line : string) :
  writes_returns st (process_line st line).
Proof.
  destruct (process_line_cases st line) as [E | [[nt E] | E]]; rewrite E.
  - left. reflexivity.
  - apply finalize_writes_returns.
  - left. apply process_content_section.
Qed.

Lemma final_capture_writes_returns (st : state) :
  writes_returns st (final_capture st).
Proof.
  unfold final_capture, writes_returns.
  destruct (truthy_opt (current_key st)).
  - left. apply store_pending_section.
  - destruct (is_section (current_section st) Returns) eqn:E; simpl;
      [|left; reflexivity].
    destruct (negb (truthy (returns st))); [|left; reflexivity].
    right. split; [|reflexivity].
    destruct (current_section st) as [[]|]; try discriminate. reflexivity.
Qed.

Lemma writes_keys_valid (sec : section) (st st' : state) :
  writes sec st st' -> keys_valid sec st ->
  forall k, In k (Dict.keys (mapping sec st')) -> valid_key k = true.
Proof.
  intros [W | (k0 & K & _ & _ & W)] [V P] k; rewrite W; [apply V|].
  intros I. apply set_keys in I as [I | ->]; [apply V, I | apply P, K].
Qed.

Lemma keys_valid_step (sec : section) (st : state) (line : string) :
  keys_valid sec st -> keys_valid sec (process_line st line).
Proof.
  intros V. split.
  - apply (writes_keys_valid sec st _ (process_line_writes sec st line) V).
  - intros k K.
    destruct (process_line_key st line) as [E | [E | (g1 & g2 & P & E)]];
      rewrite E in K.
    + apply (proj2 V). exact K.
    + discriminate.
    + injection K as <-. apply (key_pattern_valid line g1 g2 P).
Qed.

Lemma keys_valid_scan (sec : section) (ls : list string) (st : state) :
  keys_valid sec st -> keys_valid sec (scan st ls).
Proof.
  revert st. induction ls as [|l ls IH]; intros st V; [exact V|].
  rewrite scan_cons. apply IH, keys_valid_step, V.
Qed.

Lemma keys_valid_result (sec : section) (ls : list string) (k : string) :
  In k (Dict.keys (mapping sec (final_capture (scan initial ls)))) ->
  valid_key k = true.
Proof.
  apply (writes_keys_valid sec _ _ (final_capture_writes sec _)).
  apply keys_valid_scan. split.
  - destruct sec; intros k' [].
  - discriminate.
Qed.

Lemma description_trimmed (ds : list string) :
  strip (description ds) = description ds.
Proof. unfold description. apply strip_idem. Qed.

Lemma writes_trimmed (sec : section) (st st' : state) :
  writes sec st st' -> values_trimmed sec st -> values_trimmed sec st'.
Proof.
  intros [W | (k0 & _ & _ & _ & W)] V k v; rewrite W; [apply V|].
  intros I. apply set_entries in I as [I | [_ ->]];
    [exact (V k v I) | apply description_trimmed].
Qed.

Lemma values_trimmed_result (sec : section) (ls : list string) :
  values_trimmed sec (final_capture (scan initial ls)).
Proof.
  apply (writes_trimmed sec _ _ (final_capture_writes sec _)).
  assert (G : forall st, values_trimmed sec st ->
                         values_trimmed sec (scan st ls)).
  { induction ls as [|l ls IH]; intros st V; [exact V|].
    rewrite scan_cons. apply IH.
    exact (writes_trimmed sec _ _ (process_line_writes sec st l) V). }
  apply G. intros k v. destruct sec; intros [].
Qed.

Lemma returns_trimmed_result (ls : list string) :
  strip (returns (final_capture (scan initial ls)))
  = returns (final_capture (scan initial ls)).
Proof.
  assert (W : forall st st', writes_returns st st' ->
                strip (returns st) = returns st ->
                strip (returns st') = returns st').
  { intros st st' [E | [_ E]] T; rewrite E;
      [exact T | apply description_trimmed]. }
  apply (W _ _ (final_capture_writes_returns _)).
  assert (G : forall st, strip (returns st) = returns st ->
                         strip (returns (scan st ls)) = returns (scan st ls)).
  { induction ls as [|l ls IH]; intros st T; [exact T|].
    rewrite scan_cons. apply IH.
    exact (W _ _ (process_line_writes_returns st l) T). }
  apply G. reflexivity.
Qed.

End Fields.

(** Every result is the empty record or comes from the loop. *)
Lemma parse_result_cases (docstring : option string) (doc : ParsedDoc) :
  parse_docstring docstring = Returned doc ->
  doc = empty_doc
  \/ exists first rest,
       let st := final_capture (scan initial rest) in
       doc = mkDoc (strip first) (args st) (returns st) (raises st).
Proof.
  destruct docstring as [text|]; unfold parse_docstring.
  2:{ intros H. injection H as <-. left. reflexivity. }
  destruct (negb (truthy text)).
  { intros H. injection H as <-. left. reflexivity. }
  destruct (splitlines (strip text)) as [|first rest]; simpl.
  { intros H. injection H as <-. left. reflexivity. }
  intros H. injection H as <-. right. exists first, rest. reflexivity.
Qed.

(** X4. Every key of [args] and [raises] is a non-empty run of word
    characters and dots: no key is empty or holds whitespace, a colon or
    a parenthesis. *)
Theorem keys_are_identifiers
        (docstring : option string) (doc : ParsedDoc) (k : string) :
  parse_docstring docstring = Returned doc ->
  In k (Dict.keys (doc_args doc)) \/ In k (Dict.keys (doc_raises doc)) ->
  valid_key k = true.
Proof.
  intros H I. apply parse_result_cases in H as [-> | (first & rest & ->)].
  - destruct I as [[] | []].
  - cbv zeta in I. simpl in I. destruct I as [I | I].
    + exact (keys_valid_result Args rest k I).
    + exact (keys_valid_result Raises rest k I).
Qed.

Lemma keys_are_identifiers_witness : valid_key "pkg.MyError" = true.
Proof.
  apply (keys_are_identifiers
           (Some (unlines ["s"; "Raises:"; "  pkg.MyError (x): oops"]))
           (mkDoc "s" [] "" [("pkg.MyError", "oops")]) "pkg.MyError"
           eq_refl).
  right. left. reflexivity.
Defined.

(** X5. Every description of the result is trimmed: the values of [args] and
    of [raises] and the [returns] text have no leading or trailing
    whitespace. *)
Theorem descriptions_are_trimmed
        (docstring : option string) (doc : ParsedDoc) :
  parse_docstring docstring = Returned doc ->
  (forall k v, In (k, v) (doc_args doc) -> strip v = v)
  /\ (forall k v, In (k, v) (doc_raises doc) -> strip v = v)
  /\ strip (doc_returns doc) = doc_returns doc.
Proof.
  intros H. apply parse_result_cases in H as [-> | (first & rest & ->)].
  - repeat split; intros k v [].
  - cbv zeta. simpl. split; [|split].
    + exact (values_trimmed_result Args rest).
    + exact (values_trimmed_result Raises rest).
    + apply returns_trimmed_result.
Qed.

Lemma descriptions_are_trimmed_witness :
  (forall k v, In (k, v) [("x", "one two")] -> strip v = v)
  /\ (forall k v, In (k, v) [("E", "bad")] -> strip v = v)
  /\ strip "r s" = "r s".
Proof.
  exact (descriptions_are_trimmed
           (Some (unlines ["s"; "Args:"; "  x:   one  "; "     two   ";
                           "Returns:"; "   r  "; "   s  ";
                           "Raises:"; "  E:  bad  "]))
           (mkDoc "s" [("x", "one two")] "r s" [("E", "bad")]) eq_refl).
Defined.

(** ** Sections that are missing or not captured *)

Section Missing.

Lemma is_section_false (o : option section) (sec : section) :
  is_section o sec = false -> o <> Some sec.
Proof. intros E ->. destruct sec; discriminate. Qed.

Lemma section_stays_out (sec : section) (st : state) (line : string) :
  current_section st <> Some sec ->
  is_section (header_of line) sec = false ->
  current_section (process_line st line) <> Some sec.
Proof.
  intros N H.
  destruct (process_line_section st line) as [E | [E | [_ E]]]; rewrite E.
  - exact N.
  - discriminate.
  - apply is_section_false. exact H.
Qed.

Lemma writes_outside (sec : section) (st st' : state) :
  writes sec st st' -> current_section st <> Some sec ->
  mapping sec st' = mapping sec st.
Proof. intros [W | (k & _ & _ & E & _)] N; [exact W | contradiction]. Qed.

Lemma writes_returns_outside (st st' : state) :
  writes_returns st st' -> current_section st <> Some Returns ->
  returns st' = returns st.
Proof. intros [W | [E _]] N; [exact W | contradiction]. Qed.

(** A mapping is untouched as long as its section is not entered. *)
Lemma untouched_mapping (sec : section) (ls : list string) (st : state) :
  current_section st <> Some sec ->
  forallb (fun l => negb (is_section (header_of l) sec)) ls = true ->
  mapping sec (final_capture (scan st ls)) = mapping sec st.
Proof.
  revert st. induction ls as [|l ls IH]; intros st N F.
  - exact (writes_outside sec _ _ (final_capture_writes sec st) N).
  - simpl in F. apply andb_prop in F as [H F]. apply negb_true_iff in H.
    rewrite scan_cons, (IH _ (section_stays_out sec st l N H) F).
    exact (writes_outside sec _ _ (process_line_writes sec st l) N).
Qed.

Lemma untouched_returns (ls : list string) (st : state) :
  current_section st <> Some Returns ->
  forallb (fun l => negb (is_section (header_of l) Returns)) ls = true ->
  returns (final_capture (scan st ls)) = returns st.
Proof.
  revert st. induction ls as [|l ls IH]; intros st N F.
  - exact (writes_returns_outside _ _ (final_capture_writes_returns st) N).
  - simpl in F. apply andb_prop in F as [H F]. apply negb_true_iff in H.
    rewrite scan_cons, (IH _ (section_stays_out Returns st l N H) F).
    exact (writes_returns_outside _ _ (process_line_writes_returns st l) N).
Qed.

(** Inside no section, or inside Other, a line that is no header does
    nothing. *)
Lemma process_inert (st : state) (line : string) :
  inert_section (current_section st) = true ->
  is_header line = false ->
  process_line st line = st.
Proof.
  intros I H. destruct (is_blank line) eqn:B.
  - apply process_blank. exact B.
  - rewrite (process_nonheader st line B H).
    destruct (current_section st) as [[]|] eqn:E; try discriminate I;
      unfold finalize_previous; rewrite E; simpl;
      unfold process_content; rewrite E; reflexivity.
Qed.

Lemma scan_inert (body : list string) (st : state) :
  inert_section (current_section st) = true ->
  forallb (fun l => negb (is_header l)) body = true ->
  scan st body = st.
Proof.
  induction body as [|l body IH]; intros I F; [reflexivity|].
  simpl in F. apply andb_prop in F as [H F]. apply negb_true_iff in H.
  rewrite scan_cons, (process_inert st l I H). apply IH; assumption.
Qed.

End Missing.

(** X6. A field is filled only under its own header: when no line after the
    first is an Args header, [args] is empty; likewise [raises] without a
    Raises header and [returns] without a Returns header. *)
Theorem field_needs_its_header (text : string) (doc : ParsedDoc) :
  parse_docstring (Some text) = Returned doc ->
  let rest := tl (splitlines (strip text)) in
  let without sec :=
    forallb (fun l => negb (is_section (header_of l) sec)) rest = true in
  (without Args -> doc_args doc = [])
  /\ (without Raises -> doc_raises doc = [])
  /\ (without Returns -> doc_returns doc = "").
Proof.
  unfold parse_docstring.
  destruct (negb (truthy text)).
  { intros H. injection H as <-. repeat split. }
  destruct (splitlines (strip text)) as [|first rest]; simpl.
  { intros H. injection H as <-. repeat split. }
  intros H. injection H as <-. simpl. split; [|split]; intros F.
  - apply (untouched_mapping Args rest initial); [discriminate | exact F].
  - apply (untouched_mapping Raises rest initial); [discriminate | exact F].
  - apply (untouched_returns rest initial); [discriminate | exact F].
Qed.

Lemma field_needs_its_header_witness :
  let text := unlines ["s"; "Arg:"; "  x: a"; "Return:"; "  r";
                       "Raises:"; "  E: bad"] in
  let rest := tl (splitlines (strip text)) in
  let without sec :=
    forallb (fun l => negb (is_section (header_of l) sec)) rest = true in
  (without Args -> [] = @nil (string * string))
  /\ (without Raises -> [("E", "bad")] = [])
  /\ (without Returns -> "" = "").
Proof.
  exact (field_needs_its_header
           (unlines ["s"; "Arg:"; "  x: a"; "Return:"; "  r";
                     "Raises:"; "  E: bad"])
           (mkDoc "s" [] "" [("E", "bad")]) eq_refl).
Defined.

(** X7. Lines that are no headers and stand before the first header, or
    inside an Other section, are not read: the text without them parses
    to the same result. *)
Theorem uncaptured_lines_removable
        (text text' first : string) (pre body post : list string) :
  splitlines (strip text) = first :: pre ++ body ++ post ->
  splitlines (strip text') = first :: pre ++ post ->
  inert_section (current_section (scan initial pre)) = true ->
  forallb (fun l => negb (is_header l)) body = true ->
  parse_docstring (Some text) = parse_docstring (Some text').
Proof.
  intros L L' I F.
  rewrite (parse_docstring_lines text _ _ L).
  rewrite (parse_docstring_lines text' _ _ L').
  rewrite !scan_app, (scan_inert body _ I F). reflexivity.
Qed.

Lemma uncaptured_lines_removable_witness :
  parse_docstring
    (Some (unlines ["s"; "Args:"; " x: a"; "Notes:"; " y: b"; "z: c";
                    "Returns:"; " r"]))
  = parse_docstring
      (Some (unlines ["s"; "Args:"; " x: a"; "Notes:"; "Returns:"; " r"])).
Proof.
  apply (uncaptured_lines_removable
           _ _ "s" ["Args:"; " x: a"; "Notes:"] [" y: b"; "z: c"]
           ["Returns:"; " r"]); reflexivity.
Defined.

(** ** The Returns section *)

Section ReturnsSection.

Lemma scan_outside_returns (ls : list string) (st : state) :
  current_section st <> Some Returns ->
  no_header_of Returns ls = true ->
  returns (scan st ls) = returns st
  /\ current_section (scan st ls) <> Some Returns.
Proof.
  revert st. induction ls as [|l ls IH]; intros st N F; [auto|].
  simpl in F. apply andb_prop in F as [H F]. apply negb_true_iff in H.
  rewrite scan_cons.
  destruct (IH _ (section_stays_out Returns st l N H) F) as [R S].
  split; [|exact S]. rewrite R.
  exact (writes_returns_outside _ _ (process_line_writes_returns st l) N).
Qed.

Lemma returns_line_step (st : state) (line : string) :
  current_section st = Some Returns ->
  returns_line line = true ->
  process_line st line =
    if is_blank line then st
    else set_pending st (current_key st)
                     (current_desc_lines st ++ [strip line]).
Proof.
  intros E R. unfold returns_line in R.
  destruct (is_blank line) eqn:B; [apply process_blank; exact B|].
  simpl in R. apply andb_prop in R as [H I]. apply negb_true_iff in H.
  rewrite (process_nonheader st line B H).
  unfold indented in I.
  unfold finalize_previous. rewrite E, I. simpl.
  rewrite !andb_false_r.
  unfold process_content. rewrite E, I. simpl.
  rewrite orb_true_r. reflexivity.
Qed.

Lemma scan_returns_body (body : list string) (st : state) :
  current_section st = Some Returns ->
  forallb returns_line body = true ->
  scan st body = set_pending st (current_key st)
                   (current_desc_lines st ++ continuations body).
Proof.
  revert st. induction body as [|l body IH]; intros st E F.
  - unfold continuations. simpl. rewrite app_nil_r. destruct st; reflexivity.
  - simpl in F. apply andb_prop in F as [R F].
    rewrite scan_cons, (returns_line_step st l E R).
    unfold continuations. simpl.
    destruct (is_blank l); simpl.
    + apply IH; assumption.
    + rewrite IH; [|exact E|exact F]. simpl.
      rewrite <- app_assoc. reflexivity.
Qed.

End ReturnsSection.

(** X8. In a docstring whose only Returns header is followed by blank and
    indented lines, up to the end of the input, the next header or an
    unindented line after some text, [returns] is the trimmed text of
    those lines joined with single spaces. *)
Theorem returns_section_joined
        (text first h : string) (pre body post : list string) :
  splitlines (strip text) = first :: pre ++ h :: body ++ post ->
  header_of h = Some Returns ->
  no_header_of Returns pre = true ->
  forallb returns_line body = true ->
  returns_ends body post = true ->
  no_header_of Returns post = true ->
  exists doc,
    parse_docstring (Some text) = Returned doc
    /\ doc_returns doc = description (continuations body).
Proof.
  intros L H P B X Q.
  eexists. split; [apply (parse_docstring_lines text _ _ L)|].
  cbv zeta. simpl doc_returns.
  rewrite scan_app, scan_cons, scan_app.
  destruct (scan_outside_returns pre initial) as [R0 S0];
    [discriminate | exact P |].
  set (st0 := scan initial pre) in *.
  assert (Hh : is_header h = true)
    by (unfold is_header; rewrite H; reflexivity).
  rewrite (process_header st0 h Hh), H.
  destruct (finalize_section st0 (Some Returns)) as [E1 K1].
  assert (R1 : returns (finalize st0 (Some Returns)) = "").
  { rewrite (writes_returns_outside _ _
               (finalize_writes_returns st0 (Some Returns)) S0).
    exact R0. }
  assert (D1 : current_desc_lines (finalize st0 (Some Returns)) = [])
    by (destruct st0; reflexivity).
  set (st1 := finalize st0 (Some Returns)) in *.
  rewrite (scan_returns_body body st1 E1 B), D1, K1. simpl app.
  set (st2 := set_pending st1 None (continuations body)).
  assert (E2 : current_section st2 = Some Returns) by exact E1.
  assert (R2 : returns st2 = "") by exact R1.
  destruct post as [|l post].
  - change (scan st2 []) with st2. unfold final_capture.
    change (current_key st2) with (@None string).
    cbn [truthy_opt]. rewrite E2, R2. reflexivity.
  - simpl in X, Q. apply andb_prop in Q as [Ql Q].
    apply negb_true_iff in Ql. rewrite scan_cons.
    assert (G : returns (process_line st2 l)
                = description (continuations body)
                /\ current_section (process_line st2 l) <> Some Returns).
    { destruct (is_header l) eqn:Hl.
      - rewrite (process_header st2 l Hl). split.
        + apply (finalize_returns st2 _ E2).
        + rewrite (proj1 (finalize_section st2 (header_of l))).
          apply is_section_false. exact Ql.
      - simpl in X. apply andb_prop in X as [X T].
        apply andb_prop in X as [Bl Il].
        apply negb_true_iff in Bl, Il.
        rewrite (process_nonheader st2 l Bl Hl), finalize_previous_open.
        assert (O : item_open st2 = true).
        { unfold item_open. rewrite E2. simpl. exact T. }
        rewrite O, Il. cbn [andb negb].
        rewrite process_content_unsectioned
          by apply (finalize_section st2 None).
        split.
        + apply (finalize_returns st2 _ E2).
        + rewrite (proj1 (finalize_section st2 None)). discriminate. }
    destruct G as [G N].
    rewrite (untouched_returns post _ N Q). exact G.
Qed.

Lemma returns_section_joined_witness :
  exists doc,
    parse_docstring
      (Some (unlines ["s"; "Args:"; " x: a"; "Returns:"; "   A string";
                      ""; "   with more."; "Done."; "Raises:"; " E: e"]))
    = Returned doc
    /\ doc_returns doc
       = description (continuations ["   A string"; ""; "   with more."]).
Proof.
  apply (returns_section_joined
           _ "s" "Returns:" ["Args:"; " x: a"]
           ["   A string"; ""; "   with more."]
           ["Done."; "Raises:"; " E: e"]); reflexivity.
Defined.

(** The joined text of the lines above. *)
Example returns_section_text :
  description (continuations ["   A string"; ""; "   with more."])
  = "A string with more.".
Proof. reflexivity. Qed.

(** ** Reading entries back *)

Section Entries2.

Lemma valid_key_head (k : string) :
  valid_key k = true ->
  exists c k', k = String c k' /\ iskeychar c = true
               /\ all_keychars k = true.
Proof.
  unfold valid_key. destruct k as [|c k']; [discriminate|]. simpl.
  intros H. apply andb_prop in H as [C A].
  exists c, k'. rewrite C, A. auto.
Qed.

Lemma key_run_app (k : string) (c : ascii) (r : string) :
  all_keychars k = true -> iskeychar c = false ->
  key_run (k ++ String c r) = (k, String c r).
Proof.
  intros A C. induction k as [|x k IH]; simpl in *.
  - rewrite C. reflexivity.
  - apply andb_prop in A as [X A]. rewrite X, (IH A). reflexivity.
Qed.

Lemma not_linebreak_not_newline (c : ascii) :
  islinebreak c = false -> Nat.eqb (code c) 10 = false.
Proof. destruct c as [[] [] [] [] [] [] [] []]; vm_compute; congruence. Qed.

Lemma dot_star_id (s : string) : no_linebreak s = true -> dot_star s = s.
Proof.
  induction s as [|c s IH]; intros N; simpl in *; [reflexivity|].
  apply andb_prop in N as [L N]. apply negb_true_iff in L.
  rewrite (not_linebreak_not_newline c L), (IH N). reflexivity.
Qed.

Lemma annotation_end_app (a rest : string) :
  no_linebreak a = true -> annotation_end rest = None ->
  annotation_end (a ++ String ")" (String ":" rest)) = Some rest.
Proof.
  intros N R. induction a as [|x a IH].
  - simpl. rewrite R. reflexivity.
  - simpl in N. apply andb_prop in N as [L N]. apply negb_true_iff in L.
    change (annotation_end (String x a ++ String ")" (String ":" rest)))
      with (if Nat.eqb (code x) 10 then None
            else match annotation_end (a ++ String ")" (String ":" rest))
                 with
                 | Some r => Some r
                 | None =>
                     if Nat.eqb (code x) 41 then
                       match a ++ String ")" (String ":" rest) with
                       | String c' r =>
                           if Nat.eqb (code c') 58 then Some r else None
                       | "" => None
                       end
                     else None
                 end).
    rewrite (not_linebreak_not_newline x L), (IH N). reflexivity.
Qed.

Lemma lstrip_lstrip (s : string) : lstrip (lstrip s) = lstrip s.
Proof.
  destruct (all_space s) eqn:A.
  - rewrite (lstrip_all_space s A). reflexivity.
  - destruct (lstrip_not_all_space s A) as (c & r & E & Hc).
    rewrite E. apply lstrip_head. exact Hc.
Qed.

Lemma entry_tail (ty : option string) (v : string) :
  annotation ty ++ ": " ++ v =
  match ty with
  | None => String ":" (String " " v)
  | Some t =>
      String " " (String "(" (t ++ String ")" (String ":" (String " " v))))
  end.
Proof.
  destruct ty as [t|]; [|reflexivity]. simpl.
  rewrite append_char_assoc. reflexivity.
Qed.

(** The line of a well-formed entry matches the key pattern, with the key
    of the entry and, up to trimming, its text. *)
Lemma entry_line_pattern (k : string) (ty : option string) (v : string) :
  entry_ok (k, ty, v) = true ->
  exists g2, key_pattern (entry_line (k, ty, v)) = Some (k, g2)
             /\ strip g2 = v.
Proof.
  unfold entry_ok. intros H.
  apply andb_prop in H as [H T]. apply andb_prop in H as [H _].
  apply andb_prop in H as [H S]. apply andb_prop in H as [K N].
  apply String.eqb_eq in S.
  destruct (valid_key_head k K) as (c & k' & -> & C & A).
  exists (dot_star (lstrip v)). split.
  - unfold key_pattern, entry_line.
    change (lstrip ("    " ++ String c k' ++ annotation ty ++ ": " ++ v))
      with (lstrip (String c k' ++ annotation ty ++ ": " ++ v)).
    change (String c k' ++ annotation ty ++ ": " ++ v)
      with (String c (k' ++ annotation ty ++ ": " ++ v)).
    rewrite (lstrip_head c _ (keychar_not_space c C)).
    change (String c (k' ++ annotation ty ++ ": " ++ v))
      with (String c k' ++ annotation ty ++ ": " ++ v).
    rewrite entry_tail. destruct ty as [t|].
    + rewrite (key_run_app (String c k') " " _ A eq_refl).
      apply andb_prop in T as [Nt E]. apply negb_true_iff in E.
      assert (R : annotation_end (String " " v) = None).
      { simpl. destruct (annotation_end v); [discriminate | reflexivity]. }
      change (lstrip (String " " (String "("
                (t ++ String ")" (String ":" (String " " v))))))
        with (String "(" (t ++ String ")" (String ":" (String " " v)))).
      cbv iota beta.
      change (Nat.eqb (code "(") 58) with false.
      change (Nat.eqb (code "(") 40) with true.
      cbv iota.
      rewrite (annotation_end_app t (String " " v) Nt R). reflexivity.
    + rewrite (key_run_app (String c k') ":" _ A eq_refl). reflexivity.
  - rewrite (dot_star_id _ (no_linebreak_lstrip v N)).
    unfold strip. rewrite lstrip_lstrip. exact S.
Qed.

Variable sec : section.
Hypothesis sec_keyed : sec = Args \/ sec = Raises.

Lemma final_capture_keyed (st : state) :
  current_section st = Some sec ->
  mapping sec (final_capture st) =
  mapping sec (if truthy_opt (current_key st) then store_pending st else st).
Proof.
  intros E. unfold final_capture.
  destruct (truthy_opt (current_key st)); [reflexivity|].
  rewrite (not_returns_section sec sec_keyed st E). reflexivity.
Qed.

(** Reading the line of an entry, as seen from the end of the input: the
    entry is assigned to the mapping of the section. *)
Lemma entry_step (st : state) (k : string) (ty : option string)
                 (v : string) :
  current_section st = Some sec ->
  entry_ok (k, ty, v) = true ->
  let st' := process_line st (entry_line (k, ty, v)) in
  current_section st' = Some sec
  /\ mapping sec (final_capture st') =
     Dict.set (mapping sec (final_capture st)) k v.
Proof.
  intros E O st'.
  destruct (entry_line_pattern k ty v O) as (g2 & P & S).
  assert (H : is_header (entry_line (k, ty, v)) = false).
  { unfold entry_ok in O. apply andb_prop in O as [O _].
    apply andb_prop in O as [_ O]. apply negb_true_iff in O. exact O. }
  destruct (opened_entry sec sec_keyed st _ k g2 E H P
              (or_introl eq_refl)) as (E' & K' & D' & T).
  fold st' in E', K', D'. split; [exact E'|].
  rewrite (final_capture_keyed st' E'), K'. simpl truthy_opt. rewrite T.
  destruct (store_pending_spec sec sec_keyed st' E') as (M & _).
  rewrite M, K', D'. simpl key_of.
  replace (description [strip g2]) with v
    by (unfold description; simpl; rewrite strip_idem; symmetry; exact S).
  f_equal. rewrite (final_capture_keyed st E). unfold st'.
  destruct (key_pattern_shape _ k g2 P) as [B _].
  rewrite (key_line_step sec sec_keyed st _ k g2 E H P B
             (or_introl eq_refl)).
  destruct sec; reflexivity.
Qed.

Lemma entries_scan (es : list entry) (st : state) :
  current_section st = Some sec ->
  forallb entry_ok es = true ->
  mapping sec (final_capture (scan st (map entry_line es))) =
  fold_left (fun d (e : entry) => let '(k, _, v) := e in Dict.set d k v)
            es (mapping sec (final_capture st)).
Proof.
  revert st. induction es as [|[[k ty] v] es IH]; intros st E F.
  - reflexivity.
  - simpl in F. apply andb_prop in F as [O F].
    destruct (entry_step st k ty v E O) as [E' M].
    cbn [map fold_left]. rewrite scan_cons, (IH _ E' F), M. reflexivity.
Qed.

End Entries2.

Lemma set_fresh (d : Dict.dict) (k v : string) :
  ~ In k (Dict.keys d) -> Dict.set d k v = (d ++ [(k, v)])%list.
Proof.
  induction d as [|[k' v'] d IH]; intros N; simpl; [reflexivity|].
  destruct (String.eqb k' k) eqn:E.
  - apply String.eqb_eq in E. subst k'. exfalso. apply N. left. reflexivity.
  - rewrite IH; [reflexivity|]. intros I. apply N. right. exact I.
Qed.

Lemma assign_fresh (es : list entry) (acc : Dict.dict) :
  NoDup (Dict.keys acc ++ map fst (map entry_pair es)) ->
  fold_left (fun d (e : entry) => let '(k, _, v) := e in Dict.set d k v)
            es acc
  = (acc ++ map entry_pair es)%list.
Proof.
  revert acc. induction es as [|[[k ty] v] es IH]; intros acc N; simpl.
  - rewrite app_nil_r. reflexivity.
  - simpl in N. rewrite set_fresh.
    + rewrite IH.
      * rewrite <- app_assoc. reflexivity.
      * unfold Dict.keys in *. rewrite map_app, <- app_assoc. exact N.
    + intros I. apply NoDup_remove_2 in N. apply N.
      apply in_or_app. left. exact I.
Qed.

Lemma entry_lines_no_header (sec' : section) (es : list entry) :
  forallb entry_ok es = true ->
  no_header_of sec' (map entry_line es) = true.
Proof.
  induction es as [|[[k ty] v] es IH]; intros F; [reflexivity|].
  cbn [forallb] in F. apply andb_prop in F as [O F].
  unfold no_header_of. cbn [map forallb].
  fold (no_header_of sec' (map entry_line es)).
  rewrite (IH F), andb_true_r.
  unfold entry_ok in O. apply andb_prop in O as [O _].
  apply andb_prop in O as [_ O]. apply negb_true_iff in O.
  revert O. unfold is_header.
  destruct (header_of (entry_line (k, ty, v)));
    [intros X; simpl in X; discriminate X | reflexivity].
Qed.

(** X9. A section written in the usual form is read back whole.  For a
    docstring that is a summary line, an Args (or Raises) header and one
    line per entry, each four spaces, the key, an optional annotation in
    parentheses, a colon, a space and a one-line trimmed text, the
    mapping of the section is the dictionary of the entries, in their
    order when the keys are distinct, and the other fields are empty. *)
Theorem entries_round_trip
        (sec : section) (text first h : string) (es : list entry) :
  sec = Args \/ sec = Raises ->
  splitlines (strip text) = first :: h :: map entry_line es ->
  header_of h = Some sec ->
  forallb entry_ok es = true ->
  exists doc,
    parse_docstring (Some text) = Returned doc
    /\ doc_summary doc = strip first
    /\ doc_mapping sec doc = dict_of es
    /\ (NoDup (map fst (map entry_pair es)) ->
        doc_mapping sec doc = map entry_pair es)
    /\ doc_returns doc = ""
    /\ (forall sec', sec' <> sec -> doc_mapping sec' doc = []).
Proof.
  intros S L H F.
  eexists. split; [apply (parse_docstring_lines text _ _ L)|].
  cbv zeta. split; [reflexivity|].
  assert (Hh : is_header h = true)
    by (unfold is_header; rewrite H; reflexivity).
  assert (Q : forall sec', sec' <> sec ->
                no_header_of sec' (h :: map entry_line es) = true).
  { intros sec' N. unfold no_header_of. cbn [forallb].
    fold (no_header_of sec' (map entry_line es)).
    rewrite (entry_lines_no_header sec' es F), H, andb_true_r.
    destruct sec, sec'; try reflexivity; contradiction. }
  assert (M : mapping sec (final_capture
                             (scan initial (h :: map entry_line es)))
              = dict_of es).
  { rewrite scan_cons, (process_header initial h Hh), H.
    rewrite (entries_scan sec S es _ (proj1 (finalize_section _ _)) F).
    unfold dict_of. f_equal.
    destruct S as [-> | ->]; reflexivity. }
  rewrite (doc_mapping_state sec). split; [exact M|]. split; [|split].
  - intros N. rewrite M. unfold dict_of. rewrite assign_fresh; [reflexivity|].
    exact N.
  - cbn [doc_returns].
    rewrite (untouched_returns _ initial); [reflexivity | discriminate |].
    apply Q. destruct S as [-> | ->]; discriminate.
  - intros sec' N. rewrite (doc_mapping_state sec').
    rewrite (untouched_mapping sec' _ initial);
      [destruct sec'; reflexivity | discriminate | apply Q; exact N].
Qed.

Lemma entries_round_trip_witness :
  exists doc,
    parse_docstring
      (Some (unlines ["Run it."; "Args:";
                      "    code: The source";
                      "    env.name (str): ";
                      "    timeout (int): Seconds (at most 60)"]))
    = Returned doc
    /\ doc_summary doc = strip "Run it."
    /\ doc_mapping Args doc
       = dict_of [("code", None, "The source");
                  ("env.name", Some "str", "");
                  ("timeout", Some "int", "Seconds (at most 60)")]
    /\ (NoDup ["code"; "env.name"; "timeout"] ->
        doc_mapping Args doc
        = [("code", "The source"); ("env.name", "");
           ("timeout", "Seconds (at most 60)")])
    /\ doc_returns doc = ""
    /\ (forall sec', sec' <> Args -> doc_mapping sec' doc = []).
Proof.
  apply (entries_round_trip
           Args _ "Run it." "Args:"
           [("code", None, "The source");
            ("env.name", Some "str", "");
            ("timeout", Some "int", "Seconds (at most 60)")]);
    solve [left; reflexivity | reflexivity].
Defined.

(** ** The shape of a matching line *)

Section Shape.

Lemma lstrip_split (s : string) :
  exists ws, s = ws ++ lstrip s /\ all_space ws = true.
Proof.
  induction s as [|c s (ws & E & A)]; simpl.
  - exists "". auto.
  - destruct (isspace c) eqn:C.
    + exists (String c ws). simpl. rewrite C, A, <- E. auto.
    + exists "". auto.
Qed.

Lemma key_run_split (s k r : string) : key_run s = (k, r) -> s = k ++ r.
Proof.
  revert k r. induction s as [|c s IH]; intros k r; simpl.
  - intros H. injection H as <- <-. reflexivity.
  - destruct (iskeychar c).
    + destruct (key_run s) as [k' r'].
      intros H. injection H as <- <-. simpl. rewrite (IH k' r' eq_refl).
      reflexivity.
    + intros H. injection H as <- <-. reflexivity.
Qed.

Lemma code_char (c : ascii) (n : nat) :
  Nat.eqb (code c) n = true -> c = ascii_of_nat n.
Proof.
  intros E. apply Nat.eqb_eq in E. rewrite <- E. unfold code.
  symmetry. apply ascii_nat_embedding.
Qed.

Lemma annotation_end_split (t u : string) :
  annotation_end t = Some u ->
  exists a, t = a ++ String ")" (String ":" u).
Proof.
  revert u. induction t as [|c t IH]; intros u; simpl; [discriminate|].
  destruct (Nat.eqb (code c) 10); [discriminate|].
  destruct (annotation_end t) as [r|].
  - intros H. injection H as ->. destruct (IH u eq_refl) as [a E].
    exists (String c a). simpl. rewrite <- E. reflexivity.
  - destruct (Nat.eqb (code c) 41) eqn:C; [|discriminate].
    destruct t as [|c' r]; [discriminate|].
    destruct (Nat.eqb (code c') 58) eqn:C'; [|discriminate].
    intros H. injection H as ->.
    apply code_char in C, C'. subst c c'. exists "". reflexivity.
Qed.

End Shape.

(** X10. A line matches the key pattern only if it is made of whitespace, the
    key, whitespace, an optional text in parentheses and a colon; the
    captured text is what follows the colon, without its leading
    whitespace.  A line without a colon is never a key-line. *)
Theorem key_line_shape (line g1 g2 : string) :
  key_pattern line = Some (g1, g2) ->
  exists ws ws' ann rest,
    line = ws ++ g1 ++ ws' ++ ann ++ String ":" rest
    /\ all_space ws = true /\ all_space ws' = true
    /\ (ann = "" \/ exists a, ann = String "(" (a ++ String ")" ""))
    /\ g2 = dot_star (lstrip rest).
Proof.
  unfold key_pattern. intros P.
  destruct (lstrip_split line) as (ws & E & A).
  destruct (key_run (lstrip line)) as [k r] eqn:R.
  apply key_run_split in R.
  destruct k as [|c k]; [discriminate|].
  destruct (lstrip_split r) as (ws' & E' & A').
  destruct (lstrip r) as [|c' t]; [discriminate|].
  destruct (Nat.eqb (code c') 58) eqn:C.
  - injection P as <- <-. apply code_char in C. subst c'.
    exists ws, ws', "", t. rewrite E at 1. rewrite R, E' at 1.
    repeat split; auto.
  - destruct (Nat.eqb (code c') 40) eqn:C'; [|discriminate].
    destruct (annotation_end t) as [u|] eqn:T; [|discriminate].
    injection P as <- <-. apply code_char in C'. subst c'.
    destruct (annotation_end_split t u T) as [a ->].
    exists ws, ws', (String "(" (a ++ String ")" "")), u.
    rewrite E at 1. rewrite R, E' at 1.
    repeat split; auto.
    + simpl. rewrite append_char_assoc. reflexivity.
    + right. exists a. reflexivity.
Qed.

Lemma key_line_shape_witness :
  exists ws ws' ann rest,
    "  y  (list[int]):  the y value"
    = ws ++ "y" ++ ws' ++ ann ++ String ":" rest
    /\ all_space ws = true /\ all_space ws' = true
    /\ (ann = "" \/ exists a, ann = String "(" (a ++ String ")" ""))
    /\ "the y value" = dot_star (lstrip rest).
Proof.
  exact (key_line_shape "  y  (list[int]):  the y value" "y" "the y value"
           eq_refl).
Defined.

(** ** Header lines and appended lines *)

(** X11. Only the section of a header line is read: two header lines of the
    same section can stand for one another, whatever else they say. *)
Theorem header_text_irrelevant
        (text text' first h h' : string) (pre post : list string) :
  splitlines (strip text) = first :: pre ++ h :: post ->
  splitlines (strip text') = first :: pre ++ h' :: post ->
  is_header h = true ->
  header_of h' = header_of h ->
  parse_docstring (Some text') = parse_docstring (Some text).
Proof.
  intros L L' H E.
  assert (H' : is_header h' = true) by (unfold is_header; rewrite E; exact H).
  rewrite (parse_docstring_lines text _ _ L).
  rewrite (parse_docstring_lines text' _ _ L').
  rewrite !scan_app, !scan_cons.
  rewrite (process_header _ h H), (process_header _ h' H'), E.
  reflexivity.
Qed.

Lemma header_text_irrelevant_witness :
  parse_docstring
    (Some (unlines ["s"; "Args:"; " x: a"; "RAISES ValueError: when bad";
                    " E: e"]))
  = parse_docstring
      (Some (unlines ["s"; "Args:"; " x: a"; "Exceptions:"; " E: e"])).
Proof.
  apply (header_text_irrelevant
           (unlines ["s"; "Args:"; " x: a"; "Exceptions:"; " E: e"])
           (unlines ["s"; "Args:"; " x: a"; "RAISES ValueError: when bad";
                     " E: e"])
           "s" "Exceptions:" "RAISES ValueError: when bad"
           ["Args:"; " x: a"] [" E: e"]); reflexivity.
Defined.

Lemma result_key_source (sec : section) (st : state) (k : string) :
  In k (Dict.keys (mapping sec (final_capture st))) ->
  In k (Dict.keys (mapping sec st))
  \/ (current_section st = Some sec /\ current_key st = Some k
      /\ truthy k = true).
Proof.
  destruct (final_capture_writes sec st) as [W | (k0 & K & T & E & W)];
    rewrite W; [auto|].
  intros I. apply set_keys in I as [I | ->]; auto.
Qed.

(** X12. Lines appended to a docstring never remove a key: every key of
    [args] or [raises] in the result for the shorter text is a key of the
    same mapping for the longer one. *)
Theorem appended_lines_keep_keys
        (sec : section) (text text' first k : string)
        (ls more : list string) (doc doc' : ParsedDoc) :
  sec = Args \/ sec = Raises ->
  splitlines (strip text) = first :: ls ->
  splitlines (strip text') = first :: ls ++ more ->
  parse_docstring (Some text) = Returned doc ->
  parse_docstring (Some text') = Returned doc' ->
  In k (Dict.keys (doc_mapping sec doc)) ->
  In k (Dict.keys (doc_mapping sec doc')).
Proof.
  intros S L L'.
  rewrite (parse_docstring_lines text _ _ L).
  rewrite (parse_docstring_lines text' _ _ L').
  cbv zeta. intros H H'. injection H as <-. injection H' as <-.
  rewrite !doc_mapping_state, scan_app. intros I.
  apply (pending_is_stored sec S). apply result_key_source. exact I.
Qed.

Lemma appended_lines_keep_keys_witness :
  In "x" (Dict.keys (doc_mapping Args
                       (mkDoc "s" [("x", "a b"); ("y", "c")] "" []))).
Proof.
  apply (appended_lines_keep_keys
           Args (unlines ["s"; "Args:"; " x: a"])
           (unlines ["s"; "Args:"; " x: a"; "  b"; " y: c"; "Done"])
           "s" "x" ["Args:"; " x: a"] ["  b"; " y: c"; "Done"]
           (mkDoc "s" [("x", "a")] "" [])
           (mkDoc "s" [("x", "a b"); ("y", "c")] "" []));
    solve [left; reflexivity | reflexivity].
Defined.
